(** * Simple-Discord-Chatbot: the conversation-memory and reply pipeline of
    [ai-royal.js], embedded as Rocq functions.

    JavaScript strings are sequences of UTF-16 code units; [length], [slice],
    [split], [trim] and the regular expressions of the script all work on
    code units, so a string is modelled as a list of code units. *)

From Stdlib Require Import List NArith ZArith QArith Bool Lia Ascii.
From Stdlib Require String.
Close Scope Q_scope.
Import ListNotations String.StringSyntax Ascii.AsciiSyntax.
Delimit Scope string_scope with string.

(** ** Strings *)

Definition code_unit := N.
Definition jsstring := list code_unit.

(** An ASCII literal of the script as a list of code units. *)
Definition js (s : String.string) : jsstring :=
  map N_of_ascii (String.list_ascii_of_string s).
Arguments js s%_string.

Definition NL : code_unit := 10%N.

(** A non-empty string is truthy, the empty string is falsy. *)
Definition truthy (s : jsstring) : bool :=
  match s with [] => false | _ :: _ => true end.

Fixpoint jsstring_eqb (a b : jsstring) : bool :=
  match a, b with
  | [], [] => true
  | x :: a', y :: b' => N.eqb x y && jsstring_eqb a' b'
  | _, _ => false
  end.

(** ECMAScript WhiteSpace and LineTerminator code points: what
    [String.prototype.trim] strips and what [\s] matches. *)
Definition is_space (c : code_unit) : bool :=
  ((9 <=? c) && (c <=? 13) || (c =? 32) || (c =? 160) || (c =? 5760)
   || (8192 <=? c) && (c <=? 8202) || (c =? 8232) || (c =? 8233)
   || (c =? 8239) || (c =? 8287) || (c =? 12288) || (c =? 65279))%N.

Fixpoint trimStart (s : jsstring) : jsstring :=
  match s with
  | [] => []
  | c :: s' => if is_space c then trimStart s' else s
  end.

Definition trimEnd (s : jsstring) : jsstring := rev (trimStart (rev s)).

Definition trim (s : jsstring) : jsstring := trimEnd (trimStart s).

(** [s.endsWith(suffix)] *)
Definition endsWith (s suffix : jsstring) : bool :=
  (length suffix <=? length s)%nat
  && jsstring_eqb (skipn (length s - length suffix) s) suffix.

(** [s.slice(i, j)] for [0 <= i <= j]. *)
Definition slice (s : jsstring) (i j : nat) : jsstring :=
  firstn (j - i) (skipn i s).

(** [s.split('\n')] *)
Fixpoint split_nl (s : jsstring) : list jsstring :=
  match s with
  | [] => [[]]
  | c :: s' =>
      if (c =? NL)%N then [] :: split_nl s'
      else match split_nl s' with
           | l :: ls => (c :: l) :: ls
           | [] => [[c]]
           end
  end.

(** ** Regular expressions

    The patterns of the script are sequences of single-character atoms,
    optional characters, greedy or lazy stars over a character class, the
    word boundary [\b] and the end anchor [$].  The matcher follows the
    backtracking order of ECMAScript: a greedy quantifier tries the longest
    repetition first, a lazy one the shortest. *)

(** Canonicalization under the [i] flag (without [u]): a lower-case ASCII
    letter becomes upper-case.  A code unit of 128 or more never
    canonicalizes to an ASCII one, and every literal of the script's patterns
    is ASCII, so leaving the other code units alone decides the same
    matches. *)
Definition canonicalize (c : code_unit) : code_unit :=
  if ((97 <=? c) && (c <=? 122))%N then (c - 32)%N else c.

(** Word characters of [\b]: [A-Za-z0-9_]. *)
Definition is_word (c : code_unit) : bool :=
  ((65 <=? c) && (c <=? 90) || (97 <=? c) && (c <=? 122)
   || (48 <=? c) && (c <=? 57) || (c =? 95))%N.

Definition is_word_opt (c : option code_unit) : bool :=
  match c with Some x => is_word x | None => false end.

Inductive atom : Type :=
| Chr (p : code_unit -> bool)            (* one character of a class *)
| Opt (p : code_unit -> bool)            (* [c?], greedy *)
| Star (greedy : bool) (p : code_unit -> bool)  (* [c*] or [c*?] *)
| Bnd                                    (* [\b] *)
| Eos.                                   (* [$] without the [m] flag *)

Definition regex := list atom.

(** [exec r prev s] matches [r] at the start of [s], where [prev] is the
    character before the position; it returns what is left of [s] after the
    first match in backtracking order. *)
Fixpoint exec (r : regex) (prev : option code_unit) (s : jsstring)
  {struct r} : option jsstring :=
  match r with
  | [] => Some s
  | Chr p :: r' =>
      match s with
      | c :: s' => if p c then exec r' (Some c) s' else None
      | [] => None
      end
  | Opt p :: r' =>
      match s with
      | c :: s' =>
          if p c then
            match exec r' (Some c) s' with
            | Some x => Some x
            | None => exec r' prev s
            end
          else exec r' prev s
      | [] => exec r' prev s
      end
  | Star true p :: r' =>
      (fix star (prev : option code_unit) (s : jsstring) {struct s} :=
         match s with
         | c :: s' =>
             if p c then
               match star (Some c) s' with
               | Some x => Some x
               | None => exec r' prev s
               end
             else exec r' prev s
         | [] => exec r' prev s
         end) prev s
  | Star false p :: r' =>
      (fix star (prev : option code_unit) (s : jsstring) {struct s} :=
         match exec r' prev s with
         | Some x => Some x
         | None =>
             match s with
             | c :: s' => if p c then star (Some c) s' else None
             | [] => None
             end
         end) prev s
  | Bnd :: r' =>
      if xorb (is_word_opt prev) (is_word_opt (hd_error s))
      then exec r' prev s else None
  | Eos :: r' =>
      match s with [] => exec r' prev s | _ :: _ => None end
  end.

(** [s.replace(re, rep)] with the [g] flag.  [skip] counts the characters of
    the current match that are still to be passed over.  After an empty match
    the scan moves on by one character, as [lastIndex] does. *)
Fixpoint replace_from (r : regex) (rep : jsstring) (skip : nat)
  (prev : option code_unit) (s : jsstring) {struct s} : jsstring :=
  match s with
  | [] => match skip with
          | O => match exec r prev [] with Some _ => rep | None => [] end
          | S _ => []
          end
  | c :: s' =>
      match skip with
      | S k => replace_from r rep k (Some c) s'
      | O =>
          match exec r prev s with
          | Some rest =>
              match length s - length rest with
              | O => rep ++ c :: replace_from r rep 0 (Some c) s'
              | S k => rep ++ replace_from r rep k (Some c) s'
              end
          | None => c :: replace_from r rep 0 (Some c) s'
          end
      end
  end.

Definition replace_all (r : regex) (rep : jsstring) (s : jsstring) : jsstring :=
  replace_from r rep 0 None s.

(** [s.replace(re, rep)] without the [g] flag: the first match only. *)
Fixpoint replace_first_from (r : regex) (rep : jsstring)
  (prev : option code_unit) (s : jsstring) {struct s} : jsstring :=
  match exec r prev s with
  | Some rest => rep ++ rest
  | None =>
      match s with
      | [] => []
      | c :: s' => c :: replace_first_from r rep (Some c) s'
      end
  end.

Definition replace_first (r : regex) (rep : jsstring) (s : jsstring) : jsstring :=
  replace_first_from r rep None s.

(** The atom for a literal character under the [i] flag. *)
Definition lit_i (c : ascii) : atom :=
  Chr (fun x => (canonicalize x =? canonicalize (N_of_ascii c))%N).
Definition word_i (w : String.string) : regex :=
  map lit_i (String.list_ascii_of_string w).
Arguments lit_i c%_char.
Arguments word_i w%_string.

Definition not_gt (c : code_unit) : bool := negb (c =? 62)%N.  (* [^>] *)
Definition any_char (c : code_unit) : bool := true.            (* [\s\S] *)
Definition is_slash (c : code_unit) : bool := (c =? 47)%N.
Definition is_nl (c : code_unit) : bool := (c =? NL)%N.

(** ** Configuration

    The constants the script reads from [process.env] at start-up. *)

Record env : Type := {
  env_OPENAI_BASE_URL : option jsstring;
  env_NOVITA_BASE_URL : option jsstring;
  env_OPENAI_API_URL : option jsstring
}.

(** [a || b] where [a] is an environment variable: unset and empty are both
    falsy. *)
Definition env_or (a : option jsstring) (b : jsstring) : jsstring :=
  match a with
  | Some s => if truthy s then s else b
  | None => b
  end.

(** [/\/+$/] *)
Definition re_trailing_slashes : regex :=
  [Chr is_slash; Star true is_slash; Eos].

Definition OPENAI_BASE_URL (e : env) : jsstring :=
  replace_first re_trailing_slashes []
    (env_or (env_OPENAI_BASE_URL e)
       (env_or (env_NOVITA_BASE_URL e) (js "https://api.openai.com/v1"))).

Definition OPENAI_API_URL (e : env) : option jsstring := env_OPENAI_API_URL e.

Definition SYSTEM_PROMPT : jsstring :=
  js "You are a helpful Discord assistant. Be concise and accurate.".

(** ** State *)

Inductive role : Type := system | user | assistant.

Record message : Type := { msg_role : role; content : jsstring }.

Record conversation : Type := { messages : list message }.

Record state : Type := {
  globalSystemPrompt : jsstring;
  conversations : list (jsstring * conversation)
}.

Definition initial_state : state :=
  {| globalSystemPrompt := SYSTEM_PROMPT; conversations := [] |}.

Definition getSystemPrompt (st : state) : jsstring :=
  let p := trim (globalSystemPrompt st) in
  if (0 <? length p)%nat then p else SYSTEM_PROMPT.

(** The [systemprompt] branch of the [interactionCreate] handler. *)
Definition systemprompt_command (st : state) (prompt : jsstring)
  (resetContext : bool) : state :=
  let g := trim prompt in
  let g' := if (length g =? 0)%nat then SYSTEM_PROMPT else g in
  {| globalSystemPrompt := g';
     conversations := if resetContext then [] else conversations st |}.

(** The [reset] branch. *)
Definition reset_command (st : state) : state :=
  {| globalSystemPrompt := globalSystemPrompt st; conversations := [] |}.

(** ** Numbers *)

(** A JavaScript number, as [Number(...)] returns it: [NaN], an infinity,
    or a finite double, which is a rational. *)
Inductive number : Type :=
| NaN
| NegInf
| PosInf
| Fin (q : Q).

Bind Scope Z_scope with number.

(** An integer as a number. *)
Definition of_Z (z : Z) : number := Fin (inject_Z z).
Coercion of_Z : Z >-> number.

(** [n > x] for an integer [n] (a length, a sum of lengths) and a number
    [x]: every comparison with [NaN] is false. *)
Definition gt_num (n : Z) (x : number) : bool :=
  match x with
  | NaN => false
  | NegInf => true
  | PosInf => false
  | Fin q => negb (Qle_bool (inject_Z n) q)
  end.

(** [n <= x] *)
Definition le_num (n : Z) (x : number) : bool :=
  match x with
  | NaN => false
  | NegInf => false
  | PosInf => true
  | Fin q => Qle_bool (inject_Z n) q
  end.

(** ** Conversation memory *)

Fixpoint approxChars (msgs : list message) : Z :=
  match msgs with
  | [] => 0
  | m :: rest => Z.of_nat (length (content m)) + approxChars rest
  end.

Section TrimHistory.

(** The two history bounds:
    [Number(process.env.MAX_HISTORY_MESSAGES || 30)] and
    [Number(process.env.MAX_HISTORY_CHARS || 12000)].  The variables are not
    validated, so a bound is whatever number the text converts to: [NaN] for
    a text that is no numeral, possibly negative, infinite or fractional. *)
Variable MAX_HISTORY_MESSAGES : number.
Variable MAX_HISTORY_CHARS : number.

(** First loop of [trimHistory].  [shift] on an empty array leaves it
    empty, so with a negative bound the loop never ends: [None]. *)
Fixpoint trim_count (msgs : list message) : option (list message) :=
  match msgs with
  | [] => if gt_num 0 MAX_HISTORY_MESSAGES then None else Some []
  | _ :: rest =>
      if gt_num (Z.of_nat (length msgs)) MAX_HISTORY_MESSAGES
      then trim_count rest
      else Some msgs
  end.

(** Second loop of [trimHistory]. *)
Fixpoint trim_chars (msgs : list message) : list message :=
  match msgs with
  | [] => []
  | _ :: rest =>
      if gt_num (approxChars msgs) MAX_HISTORY_CHARS && (1 <? length msgs)%nat
      then trim_chars rest
      else msgs
  end.

Definition trimHistory (c : conversation) : option conversation :=
  match trim_count (messages c) with
  | Some msgs => Some {| messages := trim_chars msgs |}
  | None => None
  end.

(** [conversation.messages.push(m); trimHistory(conversation)] *)
Definition append (c : conversation) (m : message) : option conversation :=
  trimHistory {| messages := messages c ++ [m] |}.

End TrimHistory.

(** ** Text sanitizer *)

(** [/<think\b[^>]*>[\s\S]*?<\/think>/gi] *)
Definition re_think_block : regex :=
  lit_i "<" :: word_i "think"
    ++ Bnd :: Star true not_gt :: lit_i ">" :: Star false any_char
    :: lit_i "<" :: lit_i "/" :: word_i "think" ++ [lit_i ">"].

(** [/<\/?think\b[^>]*>/gi] *)
Definition re_think_tag : regex :=
  lit_i "<" :: Opt is_slash :: word_i "think"
    ++ [Bnd; Star true not_gt; lit_i ">"].

(** [/<\s*reasoning\b[^>]*>[\s\S]*?<\/\s*reasoning\s*>/gi] *)
Definition re_reasoning_block : regex :=
  lit_i "<" :: Star true is_space :: word_i "reasoning"
    ++ Bnd :: Star true not_gt :: lit_i ">" :: Star false any_char
    :: lit_i "<" :: lit_i "/" :: Star true is_space :: word_i "reasoning"
    ++ [Star true is_space; lit_i ">"].

(** [/<\/?\s*reasoning\b[^>]*>/gi] *)
Definition re_reasoning_tag : regex :=
  lit_i "<" :: Opt is_slash :: Star true is_space :: word_i "reasoning"
    ++ [Bnd; Star true not_gt; lit_i ">"].

(** [/\n{3,}/g]: three newlines and then as many as follow. *)
Definition re_newlines : regex :=
  [Chr is_nl; Chr is_nl; Chr is_nl; Star true is_nl].

Definition stripThinkBlocks (text : jsstring) : jsstring :=
  if negb (truthy text) then text
  else
    let out := replace_all re_think_block [] text in
    let out := replace_all re_think_tag [] out in
    let out := replace_all re_reasoning_block [] out in
    let out := replace_all re_reasoning_tag [] out in
    trim (replace_all re_newlines [NL; NL] out).

(** ** Endpoint URL *)

Definition buildChatCompletionsUrl (e : env) : jsstring :=
  let base :=
    let clean := replace_first re_trailing_slashes [] (OPENAI_BASE_URL e) in
    if endsWith clean (js "/v1") then clean ++ js "/chat/completions"
    else clean ++ js "/v1/chat/completions" in
  match OPENAI_API_URL e with
  | Some u => if truthy u then trim u else base
  | None => base
  end.

(** ** Completion response

    The value [JSON.parse] returns.  A number is represented by an integer:
    the code only tests whether it is zero. *)

#[local] Unset Elimination Schemes.
Inductive value : Type :=
| VUndefined
| VNull
| VBool (b : bool)
| VNum (n : Z)
| VStr (s : jsstring)
| VArr (items : list value)
| VObj (fields : list (jsstring * value)).
#[local] Set Elimination Schemes.

Inductive result (A : Type) : Type :=
| Ok (a : A)
| Throw.                          (* a [TypeError] *)
Arguments Ok {A} a.
Arguments Throw {A}.

Definition value_truthy (v : value) : bool :=
  match v with
  | VUndefined | VNull => false
  | VBool b => b
  | VNum n => negb (n =? 0)%Z
  | VStr s => truthy s
  | VArr _ | VObj _ => true
  end.

Definition nullish (v : value) : bool :=
  match v with VUndefined | VNull => true | _ => false end.

Fixpoint lookup (k : jsstring) (fields : list (jsstring * value)) : value :=
  match fields with
  | [] => VUndefined
  | (k', v) :: rest => if jsstring_eqb k k' then v else lookup k rest
  end.

(** [v.name] for the property names the script reads ([choices], [message],
    [content], [text], [reasoning_content]): only an object can have them. *)
Definition get (v : value) (name : jsstring) : value :=
  match v with
  | VObj fields => lookup name fields
  | _ => VUndefined
  end.

(** [v?.name] *)
Definition opt_get (v : value) (name : jsstring) : value :=
  if nullish v then VUndefined else get v name.

(** [v?.[0]]: the first element of an array, the first code unit of a
    string, the property ["0"] of an object. *)
Definition opt_index0 (v : value) : value :=
  match v with
  | VArr (x :: _) => x
  | VStr (c :: _) => VStr [c]
  | VObj fields => lookup (js "0") fields
  | _ => VUndefined
  end.

(** [a || b] and [a ?? b] *)
Definition or_value (a b : value) : value := if value_truthy a then a else b.
Definition coalesce (a b : value) : value := if nullish a then b else a.

(** [stripThinkBlocks] on an arbitrary value: a falsy value is returned as it
    is, and only a string has a [replace] method. *)
Definition stripThinkBlocks_value (v : value) : result value :=
  if negb (value_truthy v) then Ok v
  else match v with
       | VStr s => Ok (VStr (stripThinkBlocks s))
       | _ => Throw
       end.

Definition choice0 (data : value) : value :=
  opt_index0 (opt_get data (js "choices")).

Definition message_of (data : value) : value :=
  or_value (opt_get (choice0 data) (js "message")) (VObj []).

Definition rawContent (data : value) : value :=
  coalesce (get (message_of data) (js "content"))
    (coalesce (opt_get (choice0 data) (js "text")) (VStr [])).

Definition rawReasoning (data : value) : value :=
  or_value (get (message_of data) (js "reasoning_content")) (VStr []).

(** The part of [openAiChatCompletions] after [JSON.parse(text)]. *)
Definition completion_text (data : value) : result jsstring :=
  match stripThinkBlocks_value (rawContent data) with
  | Throw => Throw
  | Ok cleanedContent =>
      match stripThinkBlocks_value (rawReasoning data) with
      | Throw => Throw
      | Ok cleanedReasoning =>
          let content := or_value cleanedContent cleanedReasoning in
          match or_value content (VStr []) with
          | VStr s => Ok (trim s)
          | _ => Throw
          end
      end
  end.

(** ** Reply chunker

    The list [parts] that [sendLongReply] builds before it sends. *)

Record chunker : Type := { parts : list jsstring; buf : jsstring }.

Definition pushBuf (st : chunker) : chunker :=
  {| parts := if (0 <? length (trim (buf st)))%nat
              then parts st ++ [buf st] else parts st;
     buf := [] |}.

(** [for (let i = start; i < line.length; i += MAX) parts.push(line.slice(i, i + MAX))];
    [fuel] bounds the number of iterations. *)
Fixpoint slices (MAX : nat) (fuel : nat) (i : nat) (line : jsstring)
  : list jsstring :=
  match fuel with
  | O => []
  | S fuel' =>
      if (i <? length line)%nat
      then slice line i (i + MAX) :: slices MAX fuel' (i + MAX) line
      else []
  end.

(** The candidate buffer [buf ? `${buf}\n${line}` : line]. *)
Definition joined (b line : jsstring) : jsstring :=
  if truthy b then b ++ NL :: line else line.

(** One turn of the loop over the lines. *)
Definition chunk_line (MAX : nat) (st : chunker) (line : jsstring) : chunker :=
  if (MAX <? length (joined (buf st) line))%nat then
    let st' := pushBuf st in
    if (MAX <? length line)%nat then
      {| parts := parts st' ++ slices MAX (length line) 0 line;
         buf := buf st' |}
    else {| parts := parts st'; buf := line |}
  else {| parts := parts st; buf := joined (buf st) line |}.

Definition placeholder : jsstring := js "(no content)".

(** [text] is [None] for [null] or [undefined]. *)
Definition chunk (MAX : nat) (text : option jsstring) : list jsstring :=
  let text' := match text with
               | Some s => if truthy s then s else placeholder
               | None => placeholder
               end in
  parts (pushBuf (fold_left (chunk_line MAX) (split_nl text')
                    {| parts := []; buf := [] |})).

Definition sendLongReply_parts (text : option jsstring) : list jsstring :=
  chunk 1900 text.

(** [parts.join('\n')] *)
Fixpoint join_nl (l : list jsstring) : jsstring :=
  match l with
  | [] => []
  | [x] => x
  | x :: rest => x ++ NL :: join_nl rest
  end.

(** ** Conversations by user

    [state.conversations] is a plain object keyed by the author's id, a
    Discord snowflake: a string of digits.  Only the object's own properties
    are modelled, which is what [state.conversations[userId]] reads for such
    an id; a key that names a member inherited from [Object.prototype]
    ([constructor], [toString], ...) is outside the model, and the statements
    about these functions are for ids made of digits. *)

Fixpoint lookup_conversation (userId : jsstring)
  (cs : list (jsstring * conversation)) : option conversation :=
  match cs with
  | [] => None
  | (k, c) :: rest =>
      if jsstring_eqb userId k then Some c else lookup_conversation userId rest
  end.

(** [state.conversations[userId] = c] *)
Fixpoint store_conversation (userId : jsstring) (c : conversation)
  (cs : list (jsstring * conversation)) : list (jsstring * conversation) :=
  match cs with
  | [] => [(userId, c)]
  | (k, c') :: rest =>
      if jsstring_eqb userId k then (k, c) :: rest
      else (k, c') :: store_conversation userId c rest
  end.

(** [getConversation(userId)] for an id made of digits: the conversation
    and the state after the call. *)
Definition getConversation (st : state) (userId : jsstring)
  : conversation * state :=
  match lookup_conversation userId (conversations st) with
  | Some c => (c, st)
  | None =>
      ({| messages := [] |},
       {| globalSystemPrompt := globalSystemPrompt st;
          conversations :=
            store_conversation userId {| messages := [] |} (conversations st) |})
  end.

(** ** Mention handling *)

(** The atom for a literal character of a pattern without the [i] flag. *)
Definition lit (c : code_unit) : atom := Chr (N.eqb c).

Definition is_bang (c : code_unit) : bool := (c =? 33)%N.

(** [new RegExp(`<@!?${botUserId}>`, 'g')], for an id made of digits, which
    stand for themselves in a pattern. *)
Definition re_mention (botUserId : jsstring) : regex :=
  lit 60%N :: lit 64%N :: Opt is_bang :: map lit botUserId ++ [lit 62%N].

Definition stripBotMention (content botUserId : jsstring) : jsstring :=
  trim (replace_all (re_mention botUserId) [] content).

Definition DEFAULT_USER_MESSAGE : jsstring :=
  js "Respond helpfully to the user.".

(** [cleaned.trim().length ? cleaned.trim() : 'Respond helpfully to the user.'] *)
Definition userMessage (cleaned : jsstring) : jsstring :=
  if (0 <? length (trim cleaned))%nat then trim cleaned
  else DEFAULT_USER_MESSAGE.

(** What the [messageCreate] handler looks at.  [ev_auto_banned] is what
    [autoBanIfRestrictedChannel] returned. *)
Record message_event : Type := {
  ev_author_bot : bool;
  ev_auto_banned : bool;
  ev_in_guild : bool;
  ev_mentions_bot : bool;
  ev_author : jsstring;
  ev_content : jsstring
}.

(** The [messageCreate] handler up to its first [await] inside the [try]:
    the guards, then the user's turn is pushed and the history trimmed.
    [None] when [trimHistory] does not return. *)
Definition on_message (MAX_HISTORY_MESSAGES MAX_HISTORY_CHARS : number)
  (botUserId : jsstring) (st : state) (ev : message_event) : option state :=
  if ev_author_bot ev then Some st
  else if ev_auto_banned ev then Some st
  else if negb (ev_in_guild ev) then Some st
  else if negb (ev_mentions_bot ev) then Some st
  else
    let cleaned := stripBotMention (ev_content ev) botUserId in
    let (c, st1) := getConversation st (ev_author ev) in
    match append MAX_HISTORY_MESSAGES MAX_HISTORY_CHARS c
            {| msg_role := user; content := userMessage cleaned |} with
    | Some c' =>
        Some {| globalSystemPrompt := globalSystemPrompt st1;
                conversations :=
                  store_conversation (ev_author ev) c' (conversations st1) |}
    | None => None
    end.

(** ** Request headers *)

(** [process.env.OPENAI_AUTH_PREFIX ?? 'Bearer']: only an unset variable
    gives the default, an empty one stays empty. *)
Definition OPENAI_AUTH_PREFIX (e : option jsstring) : jsstring :=
  match e with Some s => s | None => js "Bearer" end.

Definition OPENAI_AUTH_HEADER (e : option jsstring) : jsstring :=
  env_or e (js "Authorization").

(** [o[k] = v] on an object given by its own properties. *)
Fixpoint obj_set (k : jsstring) (v : value) (o : list (jsstring * value))
  : list (jsstring * value) :=
  match o with
  | [] => [(k, v)]
  | (k', v') :: rest =>
      if jsstring_eqb k k' then (k, v) :: rest
      else (k', v') :: obj_set k v rest
  end.

Definition authValue (prefix key : jsstring) : jsstring :=
  if truthy prefix then trim (prefix ++ js " " ++ key) else key.

(** [{ ...extra, 'Content-Type': 'application/json', [OPENAI_AUTH_HEADER]: authValue }] *)
Definition OPENAI_HEADERS (extra : list (jsstring * value))
  (header prefix key : jsstring) : list (jsstring * value) :=
  obj_set header (VStr (authValue prefix key))
    (obj_set (js "Content-Type") (VStr (js "application/json")) extra).

(** ** Restricted channels *)

(** [s.split(sep)] for a separator of one character. *)
Fixpoint split_on (sep : code_unit) (s : jsstring) : list jsstring :=
  match s with
  | [] => [[]]
  | c :: s' =>
      if (c =? sep)%N then [] :: split_on sep s'
      else match split_on sep s' with
           | l :: ls => (c :: l) :: ls
           | [] => [[c]]
           end
  end.

Definition COMMA : code_unit := 44%N.

(** [(process.env.AUTO_BAN_CHANNEL_IDS || '1458316803217424427')
       .split(',').map(id => id.trim()).filter(Boolean)] *)
Definition AUTO_BAN_CHANNEL_IDS (e : option jsstring) : list jsstring :=
  filter truthy (map trim (split_on COMMA (env_or e (js "1458316803217424427")))).

(** ** Conversations as shared objects

    A handler holds on to the conversation object it got from
    [getConversation] across its [await]s, while [/reset] replaces the whole
    [state.conversations] object.  To follow a handler over an [await] the
    conversation objects are kept in a heap: [store_index] is
    [state.conversations], from user id to the address of an object. *)

Record store : Type := {
  store_prompt : jsstring;
  store_index : list (jsstring * nat);
  store_heap : list (list message)
}.

Fixpoint lookup_addr (userId : jsstring) (idx : list (jsstring * nat))
  : option nat :=
  match idx with
  | [] => None
  | (k, a) :: rest =>
      if jsstring_eqb userId k then Some a else lookup_addr userId rest
  end.

Fixpoint store_addr (userId : jsstring) (a : nat) (idx : list (jsstring * nat))
  : list (jsstring * nat) :=
  match idx with
  | [] => [(userId, a)]
  | (k, a') :: rest =>
      if jsstring_eqb userId k then (k, a) :: rest
      else (k, a') :: store_addr userId a rest
  end.

Definition heap_get (h : list (list message)) (a : nat) : list message :=
  nth a h [].

Fixpoint heap_set (h : list (list message)) (a : nat) (v : list message)
  : list (list message) :=
  match h, a with
  | [], _ => []
  | _ :: h', O => v :: h'
  | x :: h', S a' => x :: heap_set h' a' v
  end.

(** [getConversation] returning the object itself, for an id made of
    digits as above. *)
Definition getConversation_ref (s : store) (userId : jsstring) : nat * store :=
  match lookup_addr userId (store_index s) with
  | Some a => (a, s)
  | None =>
      (length (store_heap s),
       {| store_prompt := store_prompt s;
          store_index := store_addr userId (length (store_heap s)) (store_index s);
          store_heap := store_heap s ++ [[]] |})
  end.

(** [conversation.messages.push(m); trimHistory(conversation)] on the object
    at address [a]. *)
Definition push_and_trim (MAX_HISTORY_MESSAGES MAX_HISTORY_CHARS : number)
  (s : store) (a : nat) (m : message) : option store :=
  match append MAX_HISTORY_MESSAGES MAX_HISTORY_CHARS
          {| messages := heap_get (store_heap s) a |} m with
  | Some c' =>
      Some {| store_prompt := store_prompt s;
              store_index := store_index s;
              store_heap := heap_set (store_heap s) a (messages c') |}
  | None => None
  end.

(** The [messageCreate] handler up to the [await] of the completion: the
    address is the conversation the handler goes on with, [None] when the
    message is ignored. *)
Definition mention_start (MAX_HISTORY_MESSAGES MAX_HISTORY_CHARS : number)
  (botUserId : jsstring) (s : store) (ev : message_event)
  : option (option nat * store) :=
  if ev_author_bot ev then Some (None, s)
  else if ev_auto_banned ev then Some (None, s)
  else if negb (ev_in_guild ev) then Some (None, s)
  else if negb (ev_mentions_bot ev) then Some (None, s)
  else
    let cleaned := stripBotMention (ev_content ev) botUserId in
    let (a, s1) := getConversation_ref s (ev_author ev) in
    match push_and_trim MAX_HISTORY_MESSAGES MAX_HISTORY_CHARS s1 a
            {| msg_role := user; content := userMessage cleaned |} with
    | Some s2 => Some (Some a, s2)
    | None => None
    end.

(** The handler after the completion came back: the assistant's turn goes
    to the conversation object the handler holds. *)
Definition mention_finish (MAX_HISTORY_MESSAGES MAX_HISTORY_CHARS : number)
  (s : store) (a : nat) (assistantText : jsstring) : option store :=
  push_and_trim MAX_HISTORY_MESSAGES MAX_HISTORY_CHARS s a
    {| msg_role := assistant; content := assistantText |}.


(** What [state] shows: the conversations reachable from the index. *)
Definition view (s : store) : state :=
  {| globalSystemPrompt := store_prompt s;
     conversations :=
       map (fun p => (fst p, {| messages := heap_get (store_heap s) (snd p) |}))
         (store_index s) |}.

(** ** Vocabulary of the statements *)

(** A blank string has only white space in it. *)
Definition blank (s : jsstring) : bool := forallb is_space s.

(** What the chunker's loop maintains: every part and the buffer fit in
    [MAX]. *)
Definition fits (MAX : nat) (st : chunker) : Prop :=
  Forall (fun c => (length c <= MAX)%nat) (parts st)
  /\ (length (buf st) <= MAX)%nat.

(** A chunker state has content when a part was pushed or the buffer is not
    blank. *)
Definition has_content (st : chunker) : Prop :=
  parts st <> [] \/ blank (buf st) = false.

(** [no_match r prev s]: the pattern [r] matches at no position of [s]. *)
Fixpoint no_match (r : regex) (prev : option code_unit) (s : jsstring) : bool :=
  match exec r prev s with
  | Some _ => false
  | None =>
      match s with
      | [] => true
      | c :: s' => no_match r (Some c) s'
      end
  end.

(** A string is tag free when neither tag pattern of the sanitizer matches
    anywhere in it. *)
Definition tag_free (s : jsstring) : bool :=
  no_match re_think_tag None s && no_match re_reasoning_tag None s.

(** The number of newlines a string starts with. *)
Fixpoint lead_nl (s : jsstring) : nat :=
  match s with
  | [] => 0
  | c :: s' => if is_nl c then S (lead_nl s') else 0
  end.

Fixpoint drop_nl (s : jsstring) : jsstring :=
  match s with
  | [] => []
  | c :: s' => if is_nl c then drop_nl s' else s
  end.

(** The lines of a string that are not blank, in order. *)
Definition nonblank (ls : list jsstring) : list jsstring :=
  filter (fun l => negb (blank l)) ls.

Definition nonblank_lines (s : jsstring) : list jsstring :=
  nonblank (split_nl s).

(** A pattern that starts with a character has no empty match. *)
Definition starts_with_char (r : regex) : bool :=
  match r with Chr _ :: _ => true | _ => false end.

(** The bounds [trimHistory] establishes on one conversation. *)
Definition within_bounds (MAX_HISTORY_MESSAGES MAX_HISTORY_CHARS : number)
  (msgs : list message) : Prop :=
  le_num (Z.of_nat (length msgs)) MAX_HISTORY_MESSAGES = true
  /\ ((1 < length msgs)%nat ->
      le_num (approxChars msgs) MAX_HISTORY_CHARS = true).

(** Every stored conversation is within the bounds. *)
Definition bounded (MAX_HISTORY_MESSAGES MAX_HISTORY_CHARS : number) (st : state)
  : Prop :=
  Forall (fun p => within_bounds MAX_HISTORY_MESSAGES MAX_HISTORY_CHARS
                     (messages (snd p)))
    (conversations st).

(** A string without the character [<]. *)
Definition no_lt (s : jsstring) : bool := forallb (fun c => negb (c =? 60)%N) s.

Definition is_digit (c : code_unit) : bool := ((48 <=? c) && (c <=? 57))%N.

(** A value on which [stripThinkBlocks] throws: truthy and not a string. *)
Definition not_sanitizable (v : value) : bool :=
  value_truthy v && match v with VStr _ => false | _ => true end.

(** A store is well formed when the index points into the heap, no two
    users share an object, and every object is within the bounds. *)
Definition well_formed (MAX_HISTORY_MESSAGES MAX_HISTORY_CHARS : number)
  (s : store) : Prop :=
  Forall (fun p => (snd p < length (store_heap s))%nat) (store_index s)
  /\ NoDup (map snd (store_index s))
  /\ Forall (within_bounds MAX_HISTORY_MESSAGES MAX_HISTORY_CHARS) (store_heap s).


(** * Properties *)

(** ** Strings *)

Lemma jsstring_eqb_eq (a b : jsstring) : jsstring_eqb a b = true <-> a = b.
Proof.
  revert b; induction a as [|x a IH]; intros [|y b]; simpl; split;
    try congruence; try reflexivity.
  - intros H. apply andb_true_iff in H as [Hx Ha].
    apply N.eqb_eq in Hx. apply IH in Ha. congruence.
  - intros H. injection H as -> ->. rewrite N.eqb_refl.
    simpl. now apply IH.
Qed.

Lemma trimStart_nil_iff (s : jsstring) : trimStart s = [] <-> blank s = true.
Proof.
  induction s as [|c s IH]; simpl.
  - tauto.
  - destruct (is_space c); simpl; [exact IH | split; discriminate].
Qed.

Lemma trimStart_suffix (s : jsstring) :
  exists pre, s = pre ++ trimStart s /\ blank pre = true.
Proof.
  induction s as [|c s [pre [IH Hb]]]; simpl.
  - now exists [].
  - destruct (is_space c) eqn:E.
    + exists (c :: pre); simpl. rewrite E. split; [now f_equal | exact Hb].
    + now exists [].
Qed.

Lemma trimStart_head (s : jsstring) (c : code_unit) (t : jsstring) :
  trimStart s = c :: t -> is_space c = false.
Proof.
  induction s as [|x s IH]; simpl; [discriminate|].
  destruct (is_space x) eqn:E; [exact IH|].
  intros H; injection H as -> _; exact E.
Qed.

Lemma trimStart_fixed (s : jsstring) :
  match s with [] => True | c :: _ => is_space c = false end ->
  trimStart s = s.
Proof. destruct s as [|c s]; simpl; [reflexivity | now intros ->]. Qed.

Lemma trimStart_idem (s : jsstring) : trimStart (trimStart s) = trimStart s.
Proof.
  apply trimStart_fixed. destruct (trimStart s) eqn:E; [exact I|].
  eapply trimStart_head; eassumption.
Qed.

Lemma blank_app (a b : jsstring) : blank (a ++ b) = blank a && blank b.
Proof. apply forallb_app. Qed.

Lemma blank_rev (s : jsstring) : blank (rev s) = blank s.
Proof.
  induction s as [|c s IH]; simpl; [reflexivity|].
  rewrite blank_app, IH. simpl. rewrite andb_true_r. apply andb_comm.
Qed.

Lemma trimEnd_prefix (s : jsstring) :
  exists post, s = trimEnd s ++ post /\ blank post = true.
Proof.
  unfold trimEnd. destruct (trimStart_suffix (rev s)) as [pre [H Hb]].
  exists (rev pre). split.
  - rewrite <- rev_app_distr, <- H. now rewrite rev_involutive.
  - now rewrite blank_rev.
Qed.

Lemma trimEnd_nil_iff (s : jsstring) : trimEnd s = [] <-> blank s = true.
Proof.
  unfold trimEnd. rewrite <- blank_rev, <- trimStart_nil_iff.
  split; intros H.
  - apply (f_equal (@rev _)) in H. now rewrite rev_involutive in H.
  - now rewrite H.
Qed.

Lemma trim_nil_iff (s : jsstring) : trim s = [] <-> blank s = true.
Proof.
  unfold trim. rewrite trimEnd_nil_iff.
  destruct (trimStart_suffix s) as [pre [H Hb]].
  rewrite H at 2. rewrite blank_app, Hb. reflexivity.
Qed.

(** What [trim] returns starts and ends with a character that is not white
    space, unless it is empty. *)
Lemma trimEnd_head (s : jsstring) :
  match s with [] => True | c :: _ => is_space c = false end ->
  match trimEnd s with [] => True | c :: _ => is_space c = false end.
Proof.
  destruct (trimEnd_prefix s) as [post [H _]].
  destruct (trimEnd s) as [|c t]; [trivial|].
  rewrite H. simpl. trivial.
Qed.

Lemma trim_head (s : jsstring) :
  match trim s with [] => True | c :: _ => is_space c = false end.
Proof.
  unfold trim. apply trimEnd_head.
  destruct (trimStart s) eqn:E; [exact I|].
  eapply trimStart_head; eassumption.
Qed.

Lemma trimEnd_idem (s : jsstring) : trimEnd (trimEnd s) = trimEnd s.
Proof.
  unfold trimEnd. rewrite rev_involutive. now rewrite trimStart_idem.
Qed.

Lemma trim_idem (s : jsstring) : trim (trim s) = trim s.
Proof.
  unfold trim at 1. rewrite trimStart_fixed by apply trim_head.
  unfold trim. apply trimEnd_idem.
Qed.

Lemma blank_false_iff (s : jsstring) :
  blank s = false <-> exists c, In c s /\ is_space c = false.
Proof.
  unfold blank. induction s as [|x s IH]; simpl.
  - split; [discriminate | intros [c [[] _]]].
  - destruct (is_space x) eqn:E; simpl.
    + rewrite IH. split; intros [c [Hc Hs]].
      * exists c; auto.
      * destruct Hc as [->|Hc]; [congruence | exists c; auto].
    + split; [intros _; exists x; auto | reflexivity].
Qed.

Lemma trim_length_pos (s : jsstring) :
  (0 <? length (trim s))%nat = negb (blank s).
Proof.
  destruct (blank s) eqn:E; simpl.
  - apply trim_nil_iff in E. now rewrite E.
  - destruct (trim s) eqn:T; [|reflexivity].
    apply trim_nil_iff in T. congruence.
Qed.

(** ** Numbers *)





Lemma le_num_not_NaN (n : Z) (x : number) : le_num n x = true -> x <> NaN.
Proof. intros H ->. discriminate. Qed.

Lemma le_gt_num (n : Z) (x : number) : le_num n x = true -> gt_num n x = false.
Proof. destruct x; simpl; try discriminate; [reflexivity|]. now intros ->. Qed.

Lemma gt_le_num (n : Z) (x : number) :
  x <> NaN -> gt_num n x = false -> le_num n x = true.
Proof.
  destruct x; simpl; try discriminate; try reflexivity; [contradiction|].
  intros _. now destruct (Qle_bool _ _).
Qed.

Lemma le_num_mono (n n' : Z) (x : number) :
  (n' <= n)%Z -> le_num n x = true -> le_num n' x = true.
Proof.
  intros Hn. destruct x; simpl; try discriminate; [reflexivity|].
  unfold Qle_bool, inject_Z. simpl. rewrite !Z.leb_le. nia.
Qed.


(** ** Conversation memory *)

Section TrimHistoryFacts.

Variable MAX_HISTORY_MESSAGES : number.
Variable MAX_HISTORY_CHARS : number.

Lemma trim_count_nil :
  trim_count MAX_HISTORY_MESSAGES [] =
  if gt_num 0 MAX_HISTORY_MESSAGES then None else Some [].
Proof. reflexivity. Qed.

Lemma trim_count_cons (m : message) (rest : list message) :
  trim_count MAX_HISTORY_MESSAGES (m :: rest) =
  if gt_num (Z.of_nat (length (m :: rest))) MAX_HISTORY_MESSAGES
  then trim_count MAX_HISTORY_MESSAGES rest else Some (m :: rest).
Proof. reflexivity. Qed.

Lemma trim_chars_cons (m : message) (rest : list message) :
  trim_chars MAX_HISTORY_CHARS (m :: rest) =
  if gt_num (approxChars (m :: rest)) MAX_HISTORY_CHARS
     && (1 <? length (m :: rest))%nat
  then trim_chars MAX_HISTORY_CHARS rest else m :: rest.
Proof. reflexivity. Qed.

(** With a bound that is a number and not negative the first loop ends,
    within the bound. *)
Lemma trim_count_total (msgs : list message) :
  le_num 0 MAX_HISTORY_MESSAGES = true ->
  exists kept dropped,
    trim_count MAX_HISTORY_MESSAGES msgs = Some kept
    /\ msgs = dropped ++ kept
    /\ le_num (Z.of_nat (length kept)) MAX_HISTORY_MESSAGES = true.
Proof.
  intros Hmax. induction msgs as [|m rest IH].
  - exists [], []. rewrite trim_count_nil, (le_gt_num _ _ Hmax). auto.
  - rewrite trim_count_cons.
    destruct (gt_num (Z.of_nat (length (m :: rest))) MAX_HISTORY_MESSAGES)
      eqn:G.
    + destruct IH as [kept [dropped [E [-> Hlen]]]].
      exists kept, (m :: dropped). auto.
    + exists (m :: rest), []. split; [reflexivity|]. split; [reflexivity|].
      apply gt_le_num; [|exact G]. now apply le_num_not_NaN with (n := 0%Z).
Qed.


Lemma trim_chars_suffix (msgs : list message) :
  exists dropped, msgs = dropped ++ trim_chars MAX_HISTORY_CHARS msgs.
Proof.
  induction msgs as [|m rest [dropped IH]].
  - now exists [].
  - rewrite trim_chars_cons. destruct (_ && _).
    + exists (m :: dropped). simpl. now f_equal.
    + now exists [].
Qed.

(** With a bound that is a number, more than one turn is left by the second
    loop only within the budget. *)
Lemma trim_chars_budget (msgs : list message) :
  MAX_HISTORY_CHARS <> NaN ->
  (1 < length (trim_chars MAX_HISTORY_CHARS msgs))%nat ->
  le_num (approxChars (trim_chars MAX_HISTORY_CHARS msgs)) MAX_HISTORY_CHARS
  = true.
Proof.
  intros Hnum. induction msgs as [|m rest IH].
  - simpl. lia.
  - rewrite trim_chars_cons.
    destruct (gt_num (approxChars (m :: rest)) MAX_HISTORY_CHARS) eqn:G;
      destruct (Nat.ltb_spec 1 (length (m :: rest)));
      cbn [andb]; intros; try lia; auto using gt_le_num.
Qed.

Lemma trim_chars_keeps_last (msgs : list message) (m : message) :
  exists pre, trim_chars MAX_HISTORY_CHARS (msgs ++ [m]) = pre ++ [m].
Proof.
  induction msgs as [|x rest IH].
  - exists []. simpl app. rewrite trim_chars_cons.
    change (1 <? length [m])%nat with false. now rewrite andb_false_r.
  - change ((x :: rest) ++ [m]) with (x :: (rest ++ [m])).
    rewrite trim_chars_cons.
    destruct (_ && _); [exact IH | now exists (x :: rest)].
Qed.

Lemma trim_chars_length (msgs : list message) :
  (length (trim_chars MAX_HISTORY_CHARS msgs) <= length msgs)%nat.
Proof.
  destruct (trim_chars_suffix msgs) as [dropped H].
  rewrite H at 2. rewrite length_app. lia.
Qed.

End TrimHistoryFacts.

(** No comparison with [NaN] holds: neither loop drops a turn. *)
Lemma trim_count_NaN (msgs : list message) : trim_count NaN msgs = Some msgs.
Proof. now destruct msgs. Qed.

Lemma trim_chars_NaN (msgs : list message) : trim_chars NaN msgs = msgs.
Proof. now destruct msgs. Qed.

(** The same loops for bounds that are integers. *)
Section TrimHistoryIntegers.

Variable MAX_HISTORY_MESSAGES : Z.
Variable MAX_HISTORY_CHARS : Z.




End TrimHistoryIntegers.

(** The claim C1 fails for a bound that is not a number.  The bounds are
    read with [Number(...)] and not validated: a setting such as
    [MAX_HISTORY_MESSAGES=many] gives [NaN], no comparison with [NaN] holds,
    and forty turns stay where thirty were meant; in the same way two turns
    stay whatever their size when the character bound is [NaN]. *)
Lemma trimHistory_not_a_number :
  let turn := {| msg_role := user; content := js "hello" |} in
  (trimHistory NaN 12000 {| messages := repeat turn 40 |}
   = Some {| messages := repeat turn 40 |}
   /\ le_num (Z.of_nat (length (repeat turn 40))) NaN = false)
  /\ (trimHistory 30 NaN {| messages := [turn; turn] |}
      = Some {| messages := [turn; turn] |}
      /\ (1 < length [turn; turn])%nat
      /\ le_num (approxChars [turn; turn]) NaN = false).
Proof.
  intros turn. split; [split; reflexivity|].
  split; [reflexivity|]. split; [simpl; lia | reflexivity].
Qed.

(** C1, amended.  When [MAX_HISTORY_MESSAGES] is a number that is not
    negative and [MAX_HISTORY_CHARS] is a number, [trimHistory] returns, and
    the conversation it leaves has at most [MAX_HISTORY_MESSAGES] turns; when
    more than one turn is left their contents add up to at most
    [MAX_HISTORY_CHARS] characters.  Whatever the bound, the character loop
    keeps the newest turn, whatever its size.  For a bound that is [NaN] the
    loop of that bound drops nothing. *)
Theorem trimHistory_invariant (MAX_HISTORY_MESSAGES MAX_HISTORY_CHARS : number)
  (c : conversation) :
  (le_num 0 MAX_HISTORY_MESSAGES = true -> MAX_HISTORY_CHARS <> NaN ->
   exists c',
     trimHistory MAX_HISTORY_MESSAGES MAX_HISTORY_CHARS c = Some c'
     /\ le_num (Z.of_nat (length (messages c'))) MAX_HISTORY_MESSAGES = true
     /\ ((1 < length (messages c'))%nat ->
         le_num (approxChars (messages c')) MAX_HISTORY_CHARS = true))
  /\ (forall msgs m, exists pre,
        trim_chars MAX_HISTORY_CHARS (msgs ++ [m]) = pre ++ [m])
  /\ trim_count NaN (messages c) = Some (messages c)
  /\ trim_chars NaN (messages c) = messages c.
Proof.
  split; [|split; [|split]].
  - intros Hmax Hnum.
    destruct (trim_count_total MAX_HISTORY_MESSAGES (messages c) Hmax)
      as [kept [dropped [E [_ Hlen]]]].
    unfold trimHistory. rewrite E. eexists. split; [reflexivity|].
    simpl. split.
    + pose proof (trim_chars_length MAX_HISTORY_CHARS kept) as Hl.
      apply (le_num_mono (Z.of_nat (length kept))); [lia | exact Hlen].
    + now apply trim_chars_budget.
  - intros msgs m. apply trim_chars_keeps_last.
  - apply trim_count_NaN.
  - apply trim_chars_NaN.
Qed.


Lemma trimHistory_invariant_witness :
  let c := {| messages := [ {| msg_role := user; content := js "hello" |};
                            {| msg_role := assistant; content := js "Hi there" |} ] |} in
  le_num 0 30 = true /\ of_Z 12000 <> NaN
  /\ exists c',
       trimHistory 30 12000 c = Some c'
       /\ le_num (Z.of_nat (length (messages c'))) 30 = true
       /\ ((1 < length (messages c'))%nat ->
           le_num (approxChars (messages c')) 12000 = true).
Proof.
  intros c.
  assert (H1 : le_num 0 30 = true) by reflexivity.
  assert (H2 : of_Z 12000 <> NaN) by discriminate.
  split; [exact H1|]. split; [exact H2|].
  exact (proj1 (trimHistory_invariant 30 12000 c) H1 H2).
Defined.


(** ** System prompt *)

Lemma SYSTEM_PROMPT_trimmed : trim SYSTEM_PROMPT = SYSTEM_PROMPT.
Proof. reflexivity. Qed.

Lemma SYSTEM_PROMPT_not_blank : blank SYSTEM_PROMPT = false.
Proof. reflexivity. Qed.

Lemma trim_not_blank (s : jsstring) : trim s <> [] -> blank (trim s) = false.
Proof.
  intros H. destruct (blank (trim s)) eqn:E; [|reflexivity].
  apply trim_nil_iff in E. rewrite trim_idem in E. contradiction.
Qed.

(** C10.  Whatever string the global prompt holds, [getSystemPrompt] returns
    its trimmed value when that is not empty and the built-in prompt
    otherwise, and what it returns always has a character that is not white
    space.  The [systemprompt] command keeps the stored prompt such. *)
Theorem getSystemPrompt_never_blank (st : state) :
  (trim (globalSystemPrompt st) <> [] ->
   getSystemPrompt st = trim (globalSystemPrompt st))
  /\ (trim (globalSystemPrompt st) = [] -> getSystemPrompt st = SYSTEM_PROMPT)
  /\ (exists c, In c (getSystemPrompt st) /\ is_space c = false)
  /\ (forall prompt resetContext,
        getSystemPrompt (systemprompt_command st prompt resetContext)
        = globalSystemPrompt (systemprompt_command st prompt resetContext)).
Proof.
  unfold getSystemPrompt.
  repeat split.
  - intros H. destruct (trim (globalSystemPrompt st)); [contradiction | reflexivity].
  - intros ->. reflexivity.
  - apply blank_false_iff.
    destruct (trim (globalSystemPrompt st)) eqn:E; simpl Nat.ltb; cbv iota.
    + apply SYSTEM_PROMPT_not_blank.
    + rewrite <- E. apply trim_not_blank. congruence.
  - intros prompt resetContext. simpl.
    destruct (trim prompt) eqn:E; simpl Nat.eqb; cbv iota.
    + reflexivity.
    + rewrite <- E, trim_idem, E. reflexivity.
Qed.

Lemma getSystemPrompt_never_blank_witness :
  let st := {| globalSystemPrompt := js "  Be brief.  "; conversations := [] |} in
  trim (globalSystemPrompt st) <> []
  /\ getSystemPrompt st = js "Be brief."
  /\ getSystemPrompt {| globalSystemPrompt := js "   "; conversations := [] |}
     = SYSTEM_PROMPT.
Proof.
  intros st.
  assert (H : trim (globalSystemPrompt st) <> []) by (vm_compute; discriminate).
  split; [exact H|]. split.
  - rewrite (proj1 (getSystemPrompt_never_blank st) H). reflexivity.
  - apply (proj1 (proj2 (getSystemPrompt_never_blank
             {| globalSystemPrompt := js "   "; conversations := [] |}))).
    reflexivity.
Defined.

(** ** Reply chunker *)

Section ChunkerFacts.

Variable MAX : nat.

Lemma slice_length (s : jsstring) (i : nat) :
  (length (slice s i (i + MAX)) <= MAX)%nat.
Proof.
  unfold slice. replace (i + MAX - i)%nat with MAX by lia.
  apply firstn_le_length.
Qed.

Lemma slices_S (fuel i : nat) (line : jsstring) :
  slices MAX (S fuel) i line =
  if (i <? length line)%nat
  then slice line i (i + MAX) :: slices MAX fuel (i + MAX) line
  else [].
Proof. reflexivity. Qed.

Lemma slices_bound (fuel i : nat) (line : jsstring) :
  Forall (fun c => (length c <= MAX)%nat) (slices MAX fuel i line).
Proof.
  revert i; induction fuel as [|fuel IH]; intros i; [constructor|].
  rewrite slices_S. destruct (i <? length line)%nat; constructor.
  - apply slice_length.
  - apply IH.
Qed.

(** The fuel [sendLongReply] is given is never used up: the pieces put
    together are the whole line. *)
Lemma slices_concat (fuel i : nat) (line : jsstring) :
  (0 < MAX)%nat -> (length line - i <= fuel)%nat ->
  concat (slices MAX fuel i line) = skipn i line.
Proof.
  intros Hmax. revert i; induction fuel as [|fuel IH]; intros i Hfuel.
  - simpl. symmetry. apply skipn_all2. lia.
  - rewrite slices_S. destruct (Nat.ltb_spec i (length line)).
    + simpl. rewrite IH by lia. unfold slice.
      replace (i + MAX - i)%nat with MAX by lia.
      rewrite Nat.add_comm, <- skipn_skipn. apply firstn_skipn.
    + simpl. symmetry. apply skipn_all2. lia.
Qed.

Lemma pushBuf_fits (st : chunker) : fits MAX st -> fits MAX (pushBuf st).
Proof.
  intros [Hp Hb]. unfold pushBuf, fits; simpl. split; [|lia].
  destruct (0 <? _)%nat; [|exact Hp].
  apply Forall_app. split; [exact Hp | now constructor].
Qed.

Lemma chunk_line_fits (st : chunker) (line : jsstring) :
  fits MAX st -> fits MAX (chunk_line MAX st line).
Proof.
  intros H. unfold chunk_line.
  destruct (Nat.ltb_spec MAX (length (joined (buf st) line))).
  - destruct (pushBuf_fits _ H) as [Hp Hb].
    destruct (Nat.ltb_spec MAX (length line)); split; simpl; try lia.
    + apply Forall_app. split; [exact Hp | apply slices_bound].
    + exact Hp.
  - split; simpl; [apply H | assumption].
Qed.

Lemma fold_chunk_line_fits (lines : list jsstring) (st : chunker) :
  fits MAX st -> fits MAX (fold_left (chunk_line MAX) lines st).
Proof.
  revert st; induction lines as [|l lines IH]; intros st H; simpl.
  - exact H.
  - apply IH. now apply chunk_line_fits.
Qed.

Lemma chunk_bound (text : option jsstring) :
  Forall (fun c => (length c <= MAX)%nat) (chunk MAX text).
Proof.
  unfold chunk. apply pushBuf_fits, fold_chunk_line_fits.
  split; simpl; [constructor | lia].
Qed.

Lemma joined_blank (b line : jsstring) :
  blank (joined b line) = blank b && blank line.
Proof.
  unfold joined. destruct b as [|c b]; [reflexivity|].
  simpl truthy. cbv iota. rewrite blank_app. reflexivity.
Qed.

Lemma pushBuf_content (st : chunker) :
  has_content st -> parts (pushBuf st) <> [].
Proof.
  intros [H|H]; unfold pushBuf; simpl.
  - destruct (0 <? _)%nat; [|exact H].
    intros E. apply app_eq_nil in E as [E _]. contradiction.
  - rewrite trim_length_pos, H. simpl.
    intros E. apply app_eq_nil in E as [_ E]. discriminate.
Qed.

Lemma slices_not_nil (line : jsstring) :
  (MAX < length line)%nat -> slices MAX (length line) 0 line <> [].
Proof.
  intros H. destruct (length line) as [|n] eqn:E; [lia|].
  rewrite slices_S, E. discriminate.
Qed.

Lemma chunk_line_keeps (st : chunker) (line : jsstring) :
  has_content st -> has_content (chunk_line MAX st line).
Proof.
  intros H. unfold chunk_line.
  destruct (MAX <? length (joined (buf st) line))%nat.
  - pose proof (pushBuf_content _ H) as Hp.
    left. destruct (MAX <? length line)%nat; simpl; [|exact Hp].
    intros E. apply app_eq_nil in E as [E _]. contradiction.
  - destruct H as [H|H]; [left; exact H | right; simpl].
    rewrite joined_blank, H. reflexivity.
Qed.

Lemma chunk_line_gains (st : chunker) (line : jsstring) :
  blank line = false -> has_content (chunk_line MAX st line).
Proof.
  intros H. unfold chunk_line.
  destruct (MAX <? length (joined (buf st) line))%nat.
  - destruct (Nat.ltb_spec MAX (length line)); simpl.
    + left. simpl. intros E. apply app_eq_nil in E as [_ E].
      now apply slices_not_nil in E.
    + right. exact H.
  - right. simpl. rewrite joined_blank, H. apply andb_false_r.
Qed.

Lemma fold_chunk_line_keeps (lines : list jsstring) (st : chunker) :
  has_content st -> has_content (fold_left (chunk_line MAX) lines st).
Proof.
  revert st; induction lines as [|l lines IH]; intros st H; simpl.
  - exact H.
  - apply IH. now apply chunk_line_keeps.
Qed.

Lemma fold_chunk_line_gains (lines : list jsstring) (st : chunker) :
  existsb (fun l => negb (blank l)) lines = true ->
  has_content (fold_left (chunk_line MAX) lines st).
Proof.
  revert st; induction lines as [|l lines IH]; intros st; simpl.
  - discriminate.
  - destruct (blank l) eqn:E; simpl.
    + apply IH.
    + intros _. apply fold_chunk_line_keeps. now apply chunk_line_gains.
Qed.

End ChunkerFacts.

Lemma split_nl_not_nil (s : jsstring) : split_nl s <> [].
Proof.
  destruct s as [|c s]; simpl; [discriminate|].
  destruct (c =? NL)%N; [discriminate|].
  destruct (split_nl s); discriminate.
Qed.

Lemma split_nl_blank (s : jsstring) :
  blank s = false -> existsb (fun l => negb (blank l)) (split_nl s) = true.
Proof.
  induction s as [|c s IH]; simpl; [discriminate|].
  destruct (N.eqb_spec c NL) as [->|Hc].
  - simpl. exact IH.
  - pose proof (split_nl_not_nil s) as Hn.
    destruct (split_nl s) as [|l ls]; [contradiction|].
    simpl in *. destruct (is_space c); simpl.
    + exact IH.
    + reflexivity.
Qed.

(** A string without a newline is one line. *)
Lemma split_nl_one_line (s : jsstring) :
  (forall c, In c s -> c <> NL) -> split_nl s = [s].
Proof.
  induction s as [|c s IH]; intros H; simpl; [reflexivity|].
  destruct (N.eqb_spec c NL) as [E|_].
  - exfalso. apply (H c); [now left | exact E].
  - rewrite IH; [reflexivity|]. intros x Hx. apply H. now right.
Qed.

(** C3.  Every part [sendLongReply] builds has at most 1900 characters. *)
Theorem sendLongReply_parts_bound (text : option jsstring) :
  Forall (fun c => (length c <= 1900)%nat) (sendLongReply_parts text).
Proof. apply chunk_bound. Qed.

(** The claim C4 fails on a text of one space: the only buffer is blank,
    [pushBuf] drops it and no part is built. *)
Lemma sendLongReply_parts_blank_input :
  ~ (1 <= length (sendLongReply_parts (Some (js " "))))%nat.
Proof. vm_compute. lia. Qed.

Lemma chunk_some_not_blank (MAX : nat) (s : jsstring) :
  blank s = false -> chunk MAX (Some s) <> [].
Proof.
  intros H. unfold chunk.
  destruct s as [|c s]; [discriminate|]. simpl truthy. cbv iota.
  apply pushBuf_content, fold_chunk_line_gains, split_nl_blank, H.
Qed.

(** C4, amended.  For a [null] or empty text [sendLongReply] builds the one
    part ["(no content)"], and for a text with at least one character that is
    not white space it builds at least one part. *)
Theorem sendLongReply_parts_not_empty :
  sendLongReply_parts None = [placeholder]
  /\ sendLongReply_parts (Some []) = [placeholder]
  /\ (forall s c, In c s -> is_space c = false ->
        sendLongReply_parts (Some s) <> []).
Proof.
  split; [reflexivity|]. split; [reflexivity|].
  intros s c Hin Hc. apply chunk_some_not_blank.
  apply blank_false_iff. now exists c.
Qed.

Lemma sendLongReply_parts_not_empty_witness :
  In 72%N (js "Hi there") /\ is_space 72%N = false
  /\ sendLongReply_parts (Some (js "Hi there")) <> [].
Proof.
  assert (Hin : In 72%N (js "Hi there")) by (left; reflexivity).
  assert (Hc : is_space 72%N = false) by reflexivity.
  split; [exact Hin|]. split; [exact Hc|].
  exact (proj2 (proj2 sendLongReply_parts_not_empty) _ _ Hin Hc).
Defined.

Lemma slices_past (MAX fuel i : nat) (line : jsstring) :
  (length line <= i)%nat -> slices MAX fuel i line = [].
Proof.
  intros H. destruct fuel as [|fuel]; [reflexivity|].
  rewrite slices_S. destruct (Nat.ltb_spec i (length line)); [lia | reflexivity].
Qed.

(** A line of more than two and at most three times [MAX] characters is cut
    in three. *)
Lemma slices_three (MAX : nat) (line : jsstring) :
  (0 < MAX)%nat -> (2 * MAX < length line)%nat -> (length line <= 3 * MAX)%nat ->
  slices MAX (length line) 0 line =
  [firstn MAX line; firstn MAX (skipn MAX line); skipn (2 * MAX) line].
Proof.
  intros H0 H2 H3.
  destruct (length line) as [|[|[|n]]] eqn:E; try lia.
  rewrite !slices_S, E.
  destruct (Nat.ltb_spec 0 (S (S (S n)))); [|lia].
  destruct (Nat.ltb_spec (0 + MAX) (S (S (S n)))); [|lia].
  destruct (Nat.ltb_spec (0 + MAX + MAX) (S (S (S n)))); [|lia].
  rewrite slices_past by lia.
  unfold slice.
  replace (0 + MAX - 0)%nat with MAX by lia.
  replace (0 + MAX + MAX - (0 + MAX))%nat with MAX by lia.
  replace (0 + MAX + MAX + MAX - (0 + MAX + MAX))%nat with MAX by lia.
  replace (0 + MAX + MAX)%nat with (2 * MAX)%nat by lia.
  simpl (0 + MAX)%nat. simpl (skipn 0 line).
  f_equal. f_equal. f_equal.
  apply firstn_all2. rewrite length_skipn. lia.
Qed.

Lemma chunk_long_line (MAX : nat) (line : jsstring) :
  (0 < MAX)%nat -> (2 * MAX < length line)%nat -> (length line <= 3 * MAX)%nat ->
  (forall c, In c line -> c <> NL) ->
  chunk MAX (Some line) =
  [firstn MAX line; firstn MAX (skipn MAX line); skipn (2 * MAX) line].
Proof.
  intros H0 H2 H3 Hnl. unfold chunk.
  destruct line as [|c l] eqn:E; [simpl in H2; lia|].
  simpl truthy. cbv iota. rewrite <- E in *. clear E.
  rewrite split_nl_one_line by exact Hnl.
  simpl fold_left. unfold chunk_line. simpl buf.
  change (joined [] line) with line.
  destruct (Nat.ltb_spec MAX (length line)); [|lia].
  unfold pushBuf. simpl. now apply slices_three.
Qed.

(** C5.  A single line of 5000 characters is sent as three parts of 1900,
    1900 and 1200 characters, which put together are the line. *)
Theorem sendLongReply_parts_5000 (line : jsstring) :
  length line = 5000%nat ->
  (forall c, In c line -> c <> NL) ->
  exists a b c,
    sendLongReply_parts (Some line) = [a; b; c]
    /\ length a = 1900%nat /\ length b = 1900%nat /\ length c = 1200%nat
    /\ a ++ b ++ c = line.
Proof.
  intros Hlen Hnl.
  exists (firstn 1900 line), (firstn 1900 (skipn 1900 line)),
    (skipn (2 * 1900) line).
  split; [apply chunk_long_line; try exact Hnl; lia|].
  rewrite !length_firstn, !length_skipn, Hlen.
  repeat split; try lia.
  replace (2 * 1900)%nat with (1900 + 1900)%nat by lia.
  rewrite <- skipn_skipn, firstn_skipn. apply firstn_skipn.
Qed.

Lemma sendLongReply_parts_5000_witness :
  length (repeat 97%N 5000) = 5000%nat
  /\ (forall c, In c (repeat 97%N 5000) -> c <> NL)
  /\ exists a b c,
       sendLongReply_parts (Some (repeat 97%N 5000)) = [a; b; c]
       /\ length a = 1900%nat /\ length b = 1900%nat /\ length c = 1200%nat
       /\ a ++ b ++ c = repeat 97%N 5000.
Proof.
  assert (Hnl : forall c, In c (repeat 97%N 5000) -> c <> NL).
  { intros c Hc. apply repeat_spec in Hc. subst c. discriminate. }
  split; [apply repeat_length|]. split; [exact Hnl|].
  apply sendLongReply_parts_5000; [apply repeat_length | exact Hnl].
Defined.

(** ** Regular expressions *)

Lemma exec_chr (p : code_unit -> bool) (r : regex)
  (prev : option code_unit) (s : jsstring) :
  exec (Chr p :: r) prev s =
  match s with
  | c :: s' => if p c then exec r (Some c) s' else None
  | [] => None
  end.
Proof. reflexivity. Qed.

Lemma exec_star_greedy_nil (p : code_unit -> bool) (r : regex)
  (prev : option code_unit) :
  exec (Star true p :: r) prev [] = exec r prev [].
Proof. reflexivity. Qed.

Lemma exec_star_greedy_cons (p : code_unit -> bool) (r : regex)
  (prev : option code_unit) (c : code_unit) (s : jsstring) :
  exec (Star true p :: r) prev (c :: s) =
  if p c then
    match exec (Star true p :: r) (Some c) s with
    | Some x => Some x
    | None => exec r prev (c :: s)
    end
  else exec r prev (c :: s).
Proof. reflexivity. Qed.

Lemma exec_star_lazy (p : code_unit -> bool) (r : regex)
  (prev : option code_unit) (s : jsstring) :
  exec (Star false p :: r) prev s =
  match exec r prev s with
  | Some x => Some x
  | None =>
      match s with
      | c :: s' => if p c then exec (Star false p :: r) (Some c) s' else None
      | [] => None
      end
  end.
Proof. destruct s; reflexivity. Qed.

Lemma exec_opt (p : code_unit -> bool) (r : regex)
  (prev : option code_unit) (s : jsstring) :
  exec (Opt p :: r) prev s =
  match s with
  | c :: s' =>
      if p c then
        match exec r (Some c) s' with
        | Some x => Some x
        | None => exec r prev s
        end
      else exec r prev s
  | [] => exec r prev s
  end.
Proof. reflexivity. Qed.

(** A match consumes a prefix of the string. *)
Lemma exec_suffix (r : regex) :
  forall prev s rest, exec r prev s = Some rest -> exists m, s = m ++ rest.
Proof.
  induction r as [|a r IH]; intros prev s rest H.
  - injection H as ->. now exists [].
  - destruct a as [p|p|[|] p| |].
    + destruct s as [|c s]; simpl in H; [discriminate|].
      destruct (p c); [|discriminate].
      apply IH in H as [m ->]. now exists (c :: m).
    + rewrite exec_opt in H. destruct s as [|c s]; [now apply IH in H|].
      destruct (p c); [|now apply IH in H].
      destruct (exec r (Some c) s) eqn:E; [|now apply IH in H].
      injection H as ->. apply IH in E as [m ->]. now exists (c :: m).
    + revert prev H. induction s as [|c s IHs]; intros prev H.
      * rewrite exec_star_greedy_nil in H. now apply IH in H.
      * rewrite exec_star_greedy_cons in H.
        destruct (p c); [|now apply IH in H].
        destruct (exec (Star true p :: r) (Some c) s) eqn:E;
          [|now apply IH in H].
        injection H as ->. apply IHs in E as [m ->]. now exists (c :: m).
    + revert prev H. induction s as [|c s IHs]; intros prev H;
        rewrite exec_star_lazy in H;
        destruct (exec r prev _) eqn:E;
        try (injection H as ->; now apply IH in E); try discriminate.
      destruct (p c); [|discriminate].
      apply IHs in H as [m ->]. now exists (c :: m).
    + simpl in H. destruct (xorb _ _); [now apply IH in H | discriminate].
    + simpl in H. destruct s; [now apply IH in H | discriminate].
Qed.

(** If a pattern matches, so does each of its prefixes. *)
Lemma exec_prefix (r1 r2 : regex) :
  forall prev s, exec (r1 ++ r2) prev s <> None -> exec r1 prev s <> None.
Proof.
  induction r1 as [|a r1 IH]; intros prev s H; [discriminate|].
  change ((a :: r1) ++ r2) with (a :: (r1 ++ r2)) in H.
  destruct a as [p|p|[|] p| |].
  - destruct s as [|c s]; simpl in *; [exact H|].
    destruct (p c); [now apply IH | exact H].
  - rewrite exec_opt in *. destruct s as [|c s]; [now apply IH|].
    destruct (p c); [|now apply IH].
    destruct (exec r1 (Some c) s) eqn:E1; [discriminate|].
    destruct (exec (r1 ++ r2) (Some c) s) eqn:E2; [|now apply IH].
    exfalso. apply (IH (Some c) s); [now rewrite E2 | exact E1].
  - revert prev H. induction s as [|c s IHs]; intros prev H.
    + rewrite exec_star_greedy_nil in *. now apply IH.
    + rewrite exec_star_greedy_cons in *.
      destruct (p c); [|now apply IH].
      destruct (exec (Star true p :: r1) (Some c) s) eqn:E1; [discriminate|].
      destruct (exec (Star true p :: r1 ++ r2) (Some c) s) eqn:E2;
        [|now apply IH].
      exfalso. apply (IHs (Some c)); [now rewrite E2 | exact E1].
  - revert prev H. induction s as [|c s IHs]; intros prev H;
      rewrite exec_star_lazy in *.
    + destruct (exec r1 prev []) eqn:E1; [discriminate|].
      destruct (exec (r1 ++ r2) prev []) eqn:E2; [|exact H].
      exfalso. apply (IH prev []); [now rewrite E2 | exact E1].
    + destruct (exec r1 prev (c :: s)) eqn:E1; [discriminate|].
      destruct (exec (r1 ++ r2) prev (c :: s)) eqn:E2.
      * exfalso. apply (IH prev (c :: s)); [now rewrite E2 | exact E1].
      * destruct (p c); [now apply IHs | exact H].
  - simpl in *. destruct (xorb _ _); [now apply IH | exact H].
  - simpl in *. destruct s; [now apply IH | exact H].
Qed.

(** An optional character in front loses no match. *)
Lemma exec_opt_skip (p : code_unit -> bool) (r : regex)
  (prev : option code_unit) (s : jsstring) :
  exec r prev s <> None -> exec (Opt p :: r) prev s <> None.
Proof.
  intros H. rewrite exec_opt. destruct s as [|c s]; [exact H|].
  destruct (p c); [|exact H].
  destruct (exec r (Some c) s); [discriminate | exact H].
Qed.

Lemma no_match_cons (r : regex) (prev : option code_unit) (c : code_unit)
  (s : jsstring) :
  no_match r prev (c :: s) =
  match exec r prev (c :: s) with
  | Some _ => false
  | None => no_match r (Some c) s
  end.
Proof. reflexivity. Qed.

(** A pattern that matches only where another does is absent where the
    other is. *)
Lemma no_match_mono (r1 r2 : regex) :
  (forall prev s, exec r1 prev s <> None -> exec r2 prev s <> None) ->
  forall s prev, no_match r2 prev s = true -> no_match r1 prev s = true.
Proof.
  intros Hr. induction s as [|c s IH]; intros prev H.
  - simpl in *. destruct (exec r2 prev []) eqn:E2; [discriminate|].
    destruct (exec r1 prev []) eqn:E1; [|reflexivity].
    exfalso. apply (Hr prev []); [now rewrite E1 | exact E2].
  - rewrite no_match_cons in *.
    destruct (exec r2 prev (c :: s)) eqn:E2; [discriminate|].
    destruct (exec r1 prev (c :: s)) eqn:E1; [|now apply IH].
    exfalso. apply (Hr prev (c :: s)); [now rewrite E1 | exact E2].
Qed.

(** Where a pattern matches nowhere, [replace] changes nothing. *)
Lemma replace_no_match (r : regex) (rep : jsstring) :
  forall s prev, no_match r prev s = true -> replace_from r rep 0 prev s = s.
Proof.
  induction s as [|c s IH]; intros prev H.
  - simpl in *. now destruct (exec r prev []).
  - rewrite no_match_cons in H. simpl.
    destruct (exec r prev (c :: s)); [discriminate|].
    f_equal. now apply IH.
Qed.

Lemma replace_skip (r : regex) (rep : jsstring) :
  forall s skip prev, (skip <= length s)%nat ->
  exists prev',
    replace_from r rep skip prev s = replace_from r rep 0 prev' (skipn skip s).
Proof.
  induction s as [|c s IH]; intros skip prev H.
  - destruct skip; [now exists prev | simpl in H; lia].
  - destruct skip as [|k]; [now exists prev|].
    simpl in *. apply IH. lia.
Qed.

Lemma replace_from_cons (r : regex) (rep : jsstring)
  (prev : option code_unit) (c : code_unit) (s : jsstring) :
  replace_from r rep 0 prev (c :: s) =
  match exec r prev (c :: s) with
  | Some rest =>
      match (length (c :: s) - length rest)%nat with
      | O => rep ++ c :: replace_from r rep 0 (Some c) s
      | S k => rep ++ replace_from r rep k (Some c) s
      end
  | None => c :: replace_from r rep 0 (Some c) s
  end.
Proof. reflexivity. Qed.

(** After a match that is not empty the scan goes on where the match ends. *)
Lemma replace_match (r : regex) (rep : jsstring) (prev : option code_unit)
  (s rest : jsstring) :
  exec r prev s = Some rest -> (length rest < length s)%nat ->
  exists prev',
    replace_from r rep 0 prev s = rep ++ replace_from r rep 0 prev' rest.
Proof.
  intros E Hlen. destruct s as [|c s]; [simpl in Hlen; lia|].
  rewrite replace_from_cons, E.
  destruct (exec_suffix _ _ _ _ E) as [m Hm].
  destruct m as [|x m]; [simpl in Hm; subst rest; lia|].
  simpl in Hm. injection Hm as -> ->.
  replace (length (x :: m ++ rest) - length rest)%nat with (S (length m))
    by (change (length (x :: m ++ rest)) with (S (length (m ++ rest)));
        rewrite length_app; lia).
  destruct (replace_skip r rep (m ++ rest) (length m) (Some x)) as [prev' Hs].
  { rewrite length_app. lia. }
  exists prev'. rewrite Hs. f_equal. f_equal.
  rewrite skipn_app, skipn_all, Nat.sub_diag. reflexivity.
Qed.

(** ** Newline runs *)

Lemma drop_nl_length (s : jsstring) :
  (length (drop_nl s) + lead_nl s = length s)%nat.
Proof.
  induction s as [|c s IH]; simpl; [reflexivity|].
  destruct (is_nl c); simpl; lia.
Qed.

Lemma lead_drop_nl (s : jsstring) : lead_nl (drop_nl s) = 0%nat.
Proof.
  induction s as [|c s IH]; simpl; [reflexivity|].
  destruct (is_nl c) eqn:E; [exact IH | simpl; now rewrite E].
Qed.

Lemma exec_star_nl (prev : option code_unit) (s : jsstring) :
  exec [Star true is_nl] prev s = Some (drop_nl s).
Proof.
  revert prev; induction s as [|c s IH]; intros prev; [reflexivity|].
  rewrite exec_star_greedy_cons. simpl drop_nl.
  destruct (is_nl c); [now rewrite IH | reflexivity].
Qed.

(** [\n{3,}] matches exactly where three newlines start, and takes the whole
    run. *)
Lemma exec_newlines (prev : option code_unit) (s : jsstring) :
  exec re_newlines prev s =
  if (3 <=? lead_nl s)%nat then Some (drop_nl s) else None.
Proof.
  unfold re_newlines. rewrite exec_chr.
  destruct s as [|a s]; [reflexivity|].
  simpl lead_nl. simpl drop_nl.
  destruct (is_nl a); [|reflexivity].
  rewrite exec_chr. destruct s as [|b s]; [reflexivity|].
  simpl lead_nl. simpl drop_nl.
  destruct (is_nl b); [|reflexivity].
  rewrite exec_chr. destruct s as [|c s]; [reflexivity|].
  simpl lead_nl. simpl drop_nl.
  destruct (is_nl c); [|reflexivity].
  apply exec_star_nl.
Qed.

Lemma no_match_newlines_cons (prev : option code_unit) (c : code_unit)
  (s : jsstring) :
  no_match re_newlines prev (c :: s) =
  (lead_nl (c :: s) <? 3)%nat && no_match re_newlines (Some c) s.
Proof.
  rewrite no_match_cons, exec_newlines.
  destruct (Nat.leb_spec 3 (lead_nl (c :: s)));
    destruct (Nat.ltb_spec (lead_nl (c :: s)) 3); try lia; reflexivity.
Qed.

Lemma no_match_newlines_prev (p1 p2 : option code_unit) (s : jsstring) :
  no_match re_newlines p1 s = no_match re_newlines p2 s.
Proof.
  destruct s as [|c s]; [reflexivity|].
  now rewrite !no_match_newlines_cons.
Qed.

Lemma lead_nl_app (a b : jsstring) : (lead_nl a <= lead_nl (a ++ b))%nat.
Proof.
  induction a as [|c a IH]; simpl; [lia|].
  destruct (is_nl c); lia.
Qed.

Lemma no_match_newlines_app (a b : jsstring) (p : option code_unit) :
  no_match re_newlines p (a ++ b) = true ->
  no_match re_newlines p a = true /\ no_match re_newlines p b = true.
Proof.
  revert p; induction a as [|c a IH]; intros p H.
  - split; [reflexivity | exact H].
  - change ((c :: a) ++ b) with (c :: (a ++ b)) in H.
    rewrite no_match_newlines_cons in *.
    apply andb_true_iff in H as [Hl Hn].
    apply IH in Hn as [Ha Hb]. split.
    + apply andb_true_iff. split; [|exact Ha].
      apply Nat.ltb_lt. apply Nat.ltb_lt in Hl.
      pose proof (lead_nl_app (c :: a) b). simpl app in *. lia.
    + now rewrite (no_match_newlines_prev p (Some c)).
Qed.

Lemma no_match_newlines_trim (s : jsstring) (p : option code_unit) :
  no_match re_newlines p s = true -> no_match re_newlines p (trim s) = true.
Proof.
  intros H. unfold trim.
  destruct (trimStart_suffix s) as [pre [Hs _]].
  destruct (trimEnd_prefix (trimStart s)) as [post [He _]].
  rewrite Hs in H. apply no_match_newlines_app in H as [_ H].
  rewrite He in H. now apply no_match_newlines_app in H as [H _].
Qed.

(** What [replace(/\n{3,}/g, '\n\n')] returns has no run of three newlines
    left, and starts with no more newlines than the input. *)
Lemma collapse_newlines (n : nat) :
  forall s prev, (length s <= n)%nat ->
  no_match re_newlines None (replace_from re_newlines [NL; NL] 0 prev s) = true
  /\ (lead_nl (replace_from re_newlines [NL; NL] 0 prev s) <= lead_nl s)%nat.
Proof.
  induction n as [|n IH]; intros s prev Hlen.
  - destruct s; [|simpl in Hlen; lia]. split; reflexivity.
  - destruct s as [|c s]; [split; reflexivity|].
    pose proof (exec_newlines prev (c :: s)) as E.
    destruct (Nat.leb_spec 3 (lead_nl (c :: s))) as [H3|H3].
    + pose proof (drop_nl_length (c :: s)) as Hd.
      destruct (replace_match re_newlines [NL; NL] _ _ _ E) as [prev' ->];
        [lia|].
      destruct (IH (drop_nl (c :: s)) prev') as [Hn Hl]; [simpl in *; lia|].
      rewrite lead_drop_nl in Hl.
      set (o := replace_from re_newlines [NL; NL] 0 prev' (drop_nl (c :: s))) in *.
      change ([NL; NL] ++ o) with (NL :: NL :: o).
      rewrite !no_match_newlines_cons.
      rewrite (no_match_newlines_prev _ None), Hn.
      simpl lead_nl. change (is_nl NL) with true. cbv iota.
      split; [|simpl in H3; lia].
      destruct (Nat.ltb_spec (S (S (lead_nl o))) 3); [|lia].
      destruct (Nat.ltb_spec (S (lead_nl o)) 3); [reflexivity | lia].
    + rewrite replace_from_cons, E.
      destruct (IH s (Some c)) as [Hn Hl]; [simpl in Hlen; lia|].
      set (o := replace_from re_newlines [NL; NL] 0 (Some c) s) in *.
      rewrite no_match_newlines_cons, (no_match_newlines_prev _ None), Hn.
      simpl lead_nl in *. destruct (is_nl c); split; try lia;
        rewrite andb_true_r; apply Nat.ltb_lt; lia.
Qed.

(** ** Text sanitizer *)

(** Where a block pattern [<X...] matches, the tag pattern [<\/?X] does. *)
Lemma block_implies_tag (q p : code_unit -> bool) (X rest : regex)
  (prev : option code_unit) (s : jsstring) :
  exec (Chr q :: X ++ rest) prev s <> None ->
  exec (Chr q :: Opt p :: X) prev s <> None.
Proof.
  intros H. apply (exec_prefix (Chr q :: X) rest) in H.
  rewrite exec_chr in *. destruct s as [|c s]; [exact H|].
  destruct (q c); [|exact H]. now apply exec_opt_skip.
Qed.

Lemma think_block_implies_tag (prev : option code_unit) (s : jsstring) :
  exec re_think_block prev s <> None -> exec re_think_tag prev s <> None.
Proof.
  apply (block_implies_tag _ is_slash
           (word_i "think" ++ [Bnd; Star true not_gt; lit_i ">"])
           (Star false any_char
              :: lit_i "<" :: lit_i "/" :: word_i "think" ++ [lit_i ">"])).
Qed.

Lemma reasoning_block_implies_tag (prev : option code_unit) (s : jsstring) :
  exec re_reasoning_block prev s <> None ->
  exec re_reasoning_tag prev s <> None.
Proof.
  apply (block_implies_tag _ is_slash
           (Star true is_space :: word_i "reasoning"
              ++ [Bnd; Star true not_gt; lit_i ">"])
           (Star false any_char
              :: lit_i "<" :: lit_i "/" :: Star true is_space
              :: word_i "reasoning" ++ [Star true is_space; lit_i ">"])).
Qed.

Lemma stripThinkBlocks_shape (x : jsstring) :
  stripThinkBlocks x = []
  \/ exists z, stripThinkBlocks x = trim (replace_all re_newlines [NL; NL] z).
Proof.
  unfold stripThinkBlocks. destruct x as [|c x]; [now left|].
  right. eexists. reflexivity.
Qed.

Lemma stripThinkBlocks_trimmed (x : jsstring) :
  trim (stripThinkBlocks x) = stripThinkBlocks x.
Proof.
  destruct (stripThinkBlocks_shape x) as [->|[z ->]];
    [reflexivity | apply trim_idem].
Qed.

Lemma stripThinkBlocks_no_newline_run (x : jsstring) :
  no_match re_newlines None (stripThinkBlocks x) = true.
Proof.
  destruct (stripThinkBlocks_shape x) as [->|[z ->]]; [reflexivity|].
  apply no_match_newlines_trim. unfold replace_all.
  now apply (collapse_newlines (length z)).
Qed.

(** *** A second pass that finds a tag makes the string shorter *)

Lemma exec_chr_shorter (q : code_unit -> bool) (r : regex)
  (prev : option code_unit) (s rest : jsstring) :
  exec (Chr q :: r) prev s = Some rest -> (length rest < length s)%nat.
Proof.
  rewrite exec_chr. destruct s as [|c s]; [discriminate|].
  destruct (q c); [|discriminate]. intros H.
  apply exec_suffix in H as [m ->]. simpl. rewrite length_app. lia.
Qed.

Lemma replace_length (r : regex) (n : nat) :
  forall s prev, (length s <= n)%nat ->
  (length (replace_from r [] 0 prev s) <= length s)%nat
  /\ (forall rest, exec r prev s = Some rest ->
       (length rest < length s)%nat ->
       (length (replace_from r [] 0 prev s) < length s)%nat).
Proof.
  induction n as [|n IH]; intros s prev Hlen.
  - destruct s; [|simpl in Hlen; lia]. split.
    + simpl. now destruct (exec r prev []).
    + intros rest _ H. simpl in H. lia.
  - assert (Hm : forall rest, exec r prev s = Some rest ->
                 (length rest < length s)%nat ->
                 (length (replace_from r [] 0 prev s) < length s)%nat).
    { intros rest E Hr.
      destruct (replace_match r [] _ _ _ E Hr) as [prev' ->]. simpl app.
      destruct (IH rest prev') as [Hle _]; lia. }
    split; [|exact Hm].
    destruct s as [|c s]; [simpl; now destruct (exec r prev [])|].
    destruct (exec r prev (c :: s)) as [rest|] eqn:E.
    + destruct (Nat.ltb_spec (length rest) (length (c :: s))) as [Hr|Hr].
      * specialize (Hm rest eq_refl Hr). lia.
      * rewrite replace_from_cons, E.
        replace (length (c :: s) - length rest)%nat with 0%nat by lia.
        destruct (IH s (Some c)) as [Hle _]; [simpl in Hlen; lia|].
        simpl. lia.
    + rewrite replace_from_cons, E.
      destruct (IH s (Some c)) as [Hle _]; [simpl in Hlen; lia|].
      simpl. lia.
Qed.

Lemma replace_all_length (r : regex) (s : jsstring) :
  (length (replace_all r [] s) <= length s)%nat.
Proof. now apply (replace_length r (length s)). Qed.

(** Where a pattern that starts with a character matches somewhere, taking
    the matches out makes the string shorter. *)
Lemma replace_shorter (q : code_unit -> bool) (r : regex) :
  forall s prev, no_match (Chr q :: r) prev s = false ->
  (length (replace_from (Chr q :: r) [] 0 prev s) < length s)%nat.
Proof.
  induction s as [|c s IH]; intros prev H; [discriminate|].
  rewrite no_match_cons in H.
  destruct (exec (Chr q :: r) prev (c :: s)) as [rest|] eqn:E.
  - apply (replace_length (Chr q :: r) (length (c :: s))) with (rest := rest);
      [lia | exact E | now apply exec_chr_shorter in E].
  - rewrite replace_from_cons, E. apply IH in H. simpl. lia.
Qed.

(** A pass of the sanitizer leaves the string as it is or makes it
    shorter. *)
Lemma replace_all_same_or_shorter (r : regex) (s : jsstring) :
  starts_with_char r = true ->
  (no_match r None s = true /\ replace_all r [] s = s)
  \/ (no_match r None s = false
      /\ (length (replace_all r [] s) < length s)%nat).
Proof.
  intros Hr. destruct r as [|[q| | | |] r]; try discriminate.
  destruct (no_match (Chr q :: r) None s) eqn:E.
  - left. split; [reflexivity | now apply replace_no_match].
  - right. split; [reflexivity | now apply replace_shorter].
Qed.

Lemma collapse_length (n : nat) :
  forall s prev, (length s <= n)%nat ->
  (length (replace_from re_newlines [NL; NL] 0 prev s) <= length s)%nat.
Proof.
  induction n as [|n IH]; intros s prev Hlen.
  - destruct s; [|simpl in Hlen; lia]. simpl. lia.
  - destruct s as [|c s]; [simpl; lia|].
    pose proof (exec_newlines prev (c :: s)) as E.
    destruct (Nat.leb_spec 3 (lead_nl (c :: s))) as [H3|H3].
    + pose proof (drop_nl_length (c :: s)) as Hd.
      destruct (replace_match re_newlines [NL; NL] _ _ _ E) as [prev' ->];
        [lia|].
      specialize (IH (drop_nl (c :: s)) prev'). rewrite length_app.
      change (length [NL; NL]) with 2%nat. lia.
    + rewrite replace_from_cons, E. specialize (IH s (Some c)).
      change (length (c :: s)) with (S (length s)) in *.
      change (length (c :: ?x)) with (S (length x)). lia.
Qed.

Lemma trim_length (s : jsstring) : (length (trim s) <= length s)%nat.
Proof.
  unfold trim.
  destruct (trimStart_suffix s) as [pre [Hs _]].
  destruct (trimEnd_prefix (trimStart s)) as [post [He _]].
  rewrite Hs at 2. rewrite He at 2. rewrite !length_app. lia.
Qed.

Lemma stripThinkBlocks_shorter (y : jsstring) :
  tag_free y = false -> (length (stripThinkBlocks y) < length y)%nat.
Proof.
  intros H. unfold stripThinkBlocks.
  assert (Hy : truthy y = true)
    by (destruct y; [vm_compute in H; discriminate | reflexivity]).
  rewrite Hy. simpl negb. cbv iota.
  remember (replace_all re_think_block [] y) as s1 eqn:D1.
  remember (replace_all re_think_tag [] s1) as s2 eqn:D2.
  remember (replace_all re_reasoning_block [] s2) as s3 eqn:D3.
  remember (replace_all re_reasoning_tag [] s3) as s4 eqn:D4.
  pose proof (trim_length (replace_all re_newlines [NL; NL] s4)) as L6.
  pose proof (collapse_length (length s4) s4 None (le_n _)) as L5.
  fold (replace_all re_newlines [NL; NL] s4) in L5.
  pose proof (replace_all_length re_reasoning_tag s3) as L4.
  pose proof (replace_all_length re_reasoning_block s2) as L3.
  pose proof (replace_all_length re_think_tag s1) as L2.
  rewrite <- D4 in L4. rewrite <- D3 in L3. rewrite <- D2 in L2.
  destruct (replace_all_same_or_shorter re_think_block y eq_refl)
    as [[N1 E1]|[_ S1]]; rewrite <- D1 in *;
    [|clear - L6 L5 L4 L3 L2 S1; lia].
  pose proof (f_equal (@length code_unit) E1) as K1.
  destruct (replace_all_same_or_shorter re_think_tag s1 eq_refl)
    as [[N2 E2]|[_ S2]]; rewrite <- D2 in *;
    [|clear - L6 L5 L4 L3 K1 S2; lia].
  pose proof (f_equal (@length code_unit) E2) as K2.
  destruct (replace_all_same_or_shorter re_reasoning_block s2 eq_refl)
    as [[N3 E3]|[_ S3]]; rewrite <- D3 in *;
    [|clear - L6 L5 L4 K1 K2 S3; lia].
  pose proof (f_equal (@length code_unit) E3) as K3.
  destruct (replace_all_same_or_shorter re_reasoning_tag s3 eq_refl)
    as [[N4 E4]|[_ S4]]; rewrite <- D4 in *;
    [|clear - L6 L5 K1 K2 K3 S4; lia].
  exfalso. unfold tag_free in H.
  rewrite E3, E2, E1 in N4. rewrite E1 in N2.
  rewrite N2, N4 in H. discriminate.
Qed.

(** The claim C2 fails on ["<thi<think>nk>"]: taking the inner tag out
    leaves ["<think>"], which a second pass removes. *)
Lemma stripThinkBlocks_not_idempotent :
  stripThinkBlocks (stripThinkBlocks (js "<thi<think>nk>"))
  <> stripThinkBlocks (js "<thi<think>nk>").
Proof. vm_compute. discriminate. Qed.

Lemma stripThinkBlocks_fixed (y : jsstring) :
  tag_free y = true -> no_match re_newlines None y = true -> trim y = y ->
  stripThinkBlocks y = y.
Proof.
  intros H Hn Htrim. apply andb_true_iff in H as [Ht Hr].
  unfold stripThinkBlocks. destruct (truthy y); [|reflexivity].
  simpl negb. cbv iota. unfold replace_all.
  rewrite (replace_no_match re_think_block [] y None)
    by (revert Ht; apply no_match_mono, think_block_implies_tag).
  rewrite (replace_no_match re_think_tag [] y None) by exact Ht.
  rewrite (replace_no_match re_reasoning_block [] y None)
    by (revert Hr; apply no_match_mono, reasoning_block_implies_tag).
  rewrite (replace_no_match re_reasoning_tag [] y None) by exact Hr.
  rewrite (replace_no_match re_newlines [NL; NL] y None) by exact Hn.
  exact Htrim.
Qed.

(** C2, amended.  Sanitizing a second time changes nothing exactly when the
    sanitized string is tag free, that is when neither [<\/?think\b[^>]*>]
    nor [<\/?\s*reasoning\b[^>]*>] matches in it; in particular it changes
    nothing on every string whose sanitized form is tag free. *)
Theorem stripThinkBlocks_idempotent (x : jsstring) :
  tag_free (stripThinkBlocks x) = true <->
  stripThinkBlocks (stripThinkBlocks x) = stripThinkBlocks x.
Proof.
  split.
  - intros H. apply stripThinkBlocks_fixed; [exact H| |].
    + apply stripThinkBlocks_no_newline_run.
    + apply stripThinkBlocks_trimmed.
  - intros H. destruct (tag_free (stripThinkBlocks x)) eqn:E; [reflexivity|].
    apply stripThinkBlocks_shorter in E. rewrite H in E. lia.
Qed.

Lemma stripThinkBlocks_idempotent_witness :
  tag_free (stripThinkBlocks (js "<think>x</think>Hi <b>there</b>")) = true
  /\ stripThinkBlocks (stripThinkBlocks (js "<think>x</think>Hi <b>there</b>"))
     = stripThinkBlocks (js "<think>x</think>Hi <b>there</b>").
Proof.
  assert (H : tag_free (stripThinkBlocks (js "<think>x</think>Hi <b>there</b>"))
              = true) by (vm_compute; reflexivity).
  split; [exact H | exact (proj1 (stripThinkBlocks_idempotent _) H)].
Defined.

(** ** Endpoint URL *)

Lemma exec_star_slash_eos (prev : option code_unit) (s : jsstring) :
  exec [Star true is_slash; Eos] prev s =
  if forallb is_slash s then Some [] else None.
Proof.
  revert prev; induction s as [|c s IH]; intros prev; [reflexivity|].
  rewrite exec_star_greedy_cons, IH. simpl.
  destruct (is_slash c); [|reflexivity].
  now destruct (forallb is_slash s).
Qed.

(** [/\/+$/] matches exactly at a string of slashes that is not empty. *)
Lemma exec_trailing_slashes (prev : option code_unit) (s : jsstring) :
  exec re_trailing_slashes prev s =
  if truthy s && forallb is_slash s then Some [] else None.
Proof.
  unfold re_trailing_slashes. rewrite exec_chr.
  destruct s as [|c s]; [reflexivity|].
  rewrite exec_star_slash_eos. simpl. now destruct (is_slash c).
Qed.

Lemma ends_with_slash (a tail : jsstring) :
  tail <> [] -> forallb is_slash tail = true ->
  exists pre, a ++ tail = pre ++ js "/".
Proof.
  intros Hne Hall.
  destruct (exists_last Hne) as [t [x ->]].
  rewrite forallb_app in Hall. apply andb_true_iff in Hall as [_ Hx].
  simpl in Hx. rewrite andb_true_r in Hx. apply N.eqb_eq in Hx. subst x.
  exists (a ++ t). now rewrite app_assoc.
Qed.

Lemma replace_first_from_cons (r : regex) (rep : jsstring)
  (prev : option code_unit) (c : code_unit) (s : jsstring) :
  replace_first_from r rep prev (c :: s) =
  match exec r prev (c :: s) with
  | Some rest => rep ++ rest
  | None => c :: replace_first_from r rep (Some c) s
  end.
Proof. reflexivity. Qed.

(** [replace(/\/+$/, '')] takes the run of slashes at the end away, and
    nothing else. *)
Lemma replace_trailing_slashes (s : jsstring) :
  forall prev, exists tail,
    s = replace_first_from re_trailing_slashes [] prev s ++ tail
    /\ forallb is_slash tail = true
    /\ ~ (exists pre,
            replace_first_from re_trailing_slashes [] prev s = pre ++ js "/").
Proof.
  induction s as [|c s IH]; intros prev.
  - exists []. repeat split. intros [pre H]. now destruct pre.
  - rewrite replace_first_from_cons, exec_trailing_slashes.
    destruct (truthy (c :: s) && forallb is_slash (c :: s)) eqn:E.
    + exists (c :: s). apply andb_true_iff in E as [_ E].
      repeat split; [exact E|]. intros [pre H]. now destruct pre.
    + destruct (IH (Some c)) as [tail [Hs [Hall Hno]]].
      exists tail. repeat split; [simpl; now f_equal | exact Hall|].
      intros [pre H]. destruct pre as [|x pre].
      * injection H as -> H0.
        destruct (replace_first_from re_trailing_slashes [] _ s);
          [|discriminate].
        simpl in Hs. subst s. simpl in E. rewrite Hall in E. discriminate.
      * injection H as _ H. apply Hno. now exists pre.
Qed.

Lemma replace_trailing_slashes_fixed (s : jsstring) (prev : option code_unit) :
  ~ (exists pre, s = pre ++ js "/") ->
  replace_first_from re_trailing_slashes [] prev s = s.
Proof.
  intros Hno. destruct (replace_trailing_slashes s prev) as [tail [Hs [Hall _]]].
  destruct tail as [|x tail]; [now rewrite app_nil_r in Hs|].
  exfalso. apply Hno. rewrite Hs. apply ends_with_slash; [discriminate | exact Hall].
Qed.

Lemma endsWith_spec (s suffix : jsstring) :
  endsWith s suffix = true <-> exists pre, s = pre ++ suffix.
Proof.
  unfold endsWith. rewrite andb_true_iff, Nat.leb_le, jsstring_eqb_eq.
  split.
  - intros [Hlen H]. exists (firstn (length s - length suffix) s).
    rewrite <- (firstn_skipn (length s - length suffix) s) at 1.
    now rewrite H.
  - intros [pre ->]. rewrite length_app. split; [lia|].
    replace (length pre + length suffix - length suffix)%nat
      with (length pre) by lia.
    rewrite skipn_app, skipn_all, Nat.sub_diag. reflexivity.
Qed.

(** The claim C6 fails on an override with spaces around it: the URL is
    the override trimmed, not the override as it is. *)
Lemma buildChatCompletionsUrl_override_trimmed :
  buildChatCompletionsUrl
    {| env_OPENAI_BASE_URL := None; env_NOVITA_BASE_URL := None;
       env_OPENAI_API_URL := Some (js " https://host/api ") |}
  <> js " https://host/api ".
Proof. vm_compute. discriminate. Qed.

(** C6, amended.  An override that is set and not empty is used trimmed.
    Otherwise the base URL (the first of [OPENAI_BASE_URL], [NOVITA_BASE_URL]
    that is set and not empty, or the OpenAI default) loses the slashes at
    its end, and gets [/chat/completions] when what is left ends in [/v1]
    and [/v1/chat/completions] when it does not. *)
Theorem buildChatCompletionsUrl_spec (e : env) :
  (forall u, env_OPENAI_API_URL e = Some u -> u <> [] ->
     buildChatCompletionsUrl e = trim u)
  /\ (env_OPENAI_API_URL e = None \/ env_OPENAI_API_URL e = Some [] ->
      exists clean slashes,
        env_or (env_OPENAI_BASE_URL e)
          (env_or (env_NOVITA_BASE_URL e) (js "https://api.openai.com/v1"))
        = clean ++ slashes
        /\ forallb is_slash slashes = true
        /\ ~ (exists pre, clean = pre ++ js "/")
        /\ ((exists pre, clean = pre ++ js "/v1") ->
            buildChatCompletionsUrl e = clean ++ js "/chat/completions")
        /\ (~ (exists pre, clean = pre ++ js "/v1") ->
            buildChatCompletionsUrl e = clean ++ js "/v1/chat/completions")).
Proof.
  unfold buildChatCompletionsUrl, OPENAI_API_URL, OPENAI_BASE_URL, replace_first.
  set (base := env_or _ _).
  split.
  - intros u -> Hu. destruct u; [contradiction | reflexivity].
  - intros Hnone.
    destruct (replace_trailing_slashes base None) as [tail [Hs [Hall Hno]]].
    set (clean := replace_first_from re_trailing_slashes [] None base) in *.
    exists clean, tail.
    rewrite (replace_trailing_slashes_fixed clean None Hno).
    split; [exact Hs|]. split; [exact Hall|]. split; [exact Hno|].
    assert (Hb : match env_OPENAI_API_URL e with
                 | Some u => truthy u = false
                 | None => True
                 end) by (destruct Hnone as [->| ->]; reflexivity).
    split; intros Hv1.
    + apply endsWith_spec in Hv1. rewrite Hv1.
      destruct (env_OPENAI_API_URL e); [now rewrite Hb | reflexivity].
    + destruct (endsWith clean (js "/v1")) eqn:E;
        [apply endsWith_spec in E; contradiction|].
      destruct (env_OPENAI_API_URL e); [now rewrite Hb | reflexivity].
Qed.

Lemma buildChatCompletionsUrl_spec_witness :
  buildChatCompletionsUrl
    {| env_OPENAI_BASE_URL := None; env_NOVITA_BASE_URL := None;
       env_OPENAI_API_URL := Some (js " https://host/api ") |}
  = js "https://host/api"
  /\ exists clean slashes,
       js "https://host/openai//" = clean ++ slashes
       /\ forallb is_slash slashes = true
       /\ ~ (exists pre, clean = pre ++ js "/")
       /\ ((exists pre, clean = pre ++ js "/v1") ->
           buildChatCompletionsUrl
             {| env_OPENAI_BASE_URL := Some (js "https://host/openai//");
                env_NOVITA_BASE_URL := None; env_OPENAI_API_URL := None |}
           = clean ++ js "/chat/completions")
       /\ (~ (exists pre, clean = pre ++ js "/v1") ->
           buildChatCompletionsUrl
             {| env_OPENAI_BASE_URL := Some (js "https://host/openai//");
                env_NOVITA_BASE_URL := None; env_OPENAI_API_URL := None |}
           = clean ++ js "/v1/chat/completions").
Proof.
  split.
  - apply (proj1 (buildChatCompletionsUrl_spec
             {| env_OPENAI_BASE_URL := None; env_NOVITA_BASE_URL := None;
                env_OPENAI_API_URL := Some (js " https://host/api ") |})
             (js " https://host/api ")); [reflexivity | discriminate].
  - apply (proj2 (buildChatCompletionsUrl_spec
             {| env_OPENAI_BASE_URL := Some (js "https://host/openai//");
                env_NOVITA_BASE_URL := None; env_OPENAI_API_URL := None |})).
    left. reflexivity.
Defined.

(** The two resolutions the specification names. *)
Example buildChatCompletionsUrl_openai :
  buildChatCompletionsUrl
    {| env_OPENAI_BASE_URL := Some (js "https://api.openai.com/v1");
       env_NOVITA_BASE_URL := None; env_OPENAI_API_URL := None |}
  = js "https://api.openai.com/v1/chat/completions".
Proof. reflexivity. Qed.

Example buildChatCompletionsUrl_host :
  buildChatCompletionsUrl
    {| env_OPENAI_BASE_URL := Some (js "https://host/openai");
       env_NOVITA_BASE_URL := None; env_OPENAI_API_URL := None |}
  = js "https://host/openai/v1/chat/completions".
Proof. reflexivity. Qed.

(** ** Completion response *)

Lemma stripThinkBlocks_value_str (s : jsstring) :
  stripThinkBlocks_value (VStr s) = Ok (VStr (stripThinkBlocks s)).
Proof. destruct s; reflexivity. Qed.

Lemma or_value_str (a b : jsstring) :
  or_value (VStr a) (VStr b) = VStr (if truthy a then a else b).
Proof. destruct a; reflexivity. Qed.

Lemma completion_text_strings (data : value) (c r : jsstring) :
  rawContent data = VStr c -> rawReasoning data = VStr r ->
  completion_text data =
  Ok (if truthy (stripThinkBlocks c) then stripThinkBlocks c
      else stripThinkBlocks r).
Proof.
  intros Hc Hr. unfold completion_text.
  rewrite Hc, Hr, !stripThinkBlocks_value_str, !or_value_str.
  pose proof (stripThinkBlocks_trimmed c) as Tc.
  pose proof (stripThinkBlocks_trimmed r) as Tr.
  destruct (stripThinkBlocks c) as [|x a]; simpl truthy; cbv iota.
  - destruct (stripThinkBlocks r) as [|y b]; simpl truthy; cbv iota;
      [reflexivity | now rewrite Tr].
  - now rewrite Tc.
Qed.

(** The claim C7 fails on a response whose [reasoning_content] is not a
    string.  The primary content [Hi] is not empty after sanitizing, so the
    claim has [Hi] returned; but [reasoning_content] is sanitized before the
    content is looked at, an array is truthy and has no [replace], and the
    call throws. *)
Lemma completion_text_reasoning_not_string :
  let data :=
    VObj [(js "choices",
           VArr [VObj [(js "message",
                        VObj [(js "content", VStr (js "Hi"));
                              (js "reasoning_content", VArr [])])]])] in
  rawContent data = VStr (js "Hi")
  /\ stripThinkBlocks (js "Hi") = js "Hi"
  /\ completion_text data = Throw.
Proof. intros data. split; [reflexivity|]. split; reflexivity. Qed.

(** C7, amended.  Let the primary content be the string in
    [message.content], or the string in the choice's [text] when [content] is
    [null] or missing (the empty string when both are).  With
    [reasoning_content] a string, or falsy or missing, [completion_text]
    returns the sanitized primary content when that is not empty and the
    sanitized [reasoning_content] otherwise; what it returns is a string that
    [trim] leaves as it is. *)
Theorem completion_text_spec (data : value) (primary reasoning : jsstring) :
  get (message_of data) (js "content") = VStr primary
  \/ (nullish (get (message_of data) (js "content")) = true
      /\ (opt_get (choice0 data) (js "text") = VStr primary
          \/ (nullish (opt_get (choice0 data) (js "text")) = true
              /\ primary = []))) ->
  get (message_of data) (js "reasoning_content") = VStr reasoning
  \/ (value_truthy (get (message_of data) (js "reasoning_content")) = false
      /\ reasoning = []) ->
  exists text,
    completion_text data = Ok text
    /\ (stripThinkBlocks primary <> [] -> text = stripThinkBlocks primary)
    /\ (stripThinkBlocks primary = [] -> text = stripThinkBlocks reasoning)
    /\ trim text = text.
Proof.
  intros Hp Hr.
  assert (Hc : rawContent data = VStr primary).
  { unfold rawContent.
    destruct Hp as [->|[Hn [Ht|[Ht ->]]]]; [reflexivity| |].
    - unfold coalesce at 1. rewrite Hn, Ht. reflexivity.
    - unfold coalesce. now rewrite Hn, Ht. }
  assert (Hr' : rawReasoning data = VStr reasoning).
  { unfold rawReasoning.
    destruct Hr as [->|[Hf ->]].
    - now destruct reasoning.
    - unfold or_value. now rewrite Hf. }
  rewrite (completion_text_strings data _ _ Hc Hr').
  eexists. split; [reflexivity|].
  destruct (stripThinkBlocks primary) eqn:E; simpl truthy; cbv iota.
  - split; [intros H; now contradiction H|].
    split; [reflexivity | apply stripThinkBlocks_trimmed].
  - split; [reflexivity|]. split; [discriminate|].
    rewrite <- E. apply stripThinkBlocks_trimmed.
Qed.

Lemma completion_text_spec_witness :
  let data :=
    VObj [(js "choices",
           VArr [VObj [(js "message",
                        VObj [(js "content",
                               VStr (js "<think>x</think>Hi there"))])]])] in
  completion_text data = Ok (js "Hi there")
  /\ exists text,
       completion_text data = Ok text
       /\ (stripThinkBlocks (js "<think>x</think>Hi there") <> [] ->
           text = stripThinkBlocks (js "<think>x</think>Hi there"))
       /\ (stripThinkBlocks (js "<think>x</think>Hi there") = [] ->
           text = stripThinkBlocks [])
       /\ trim text = text.
Proof.
  intros data. split; [reflexivity|].
  apply (completion_text_spec data (js "<think>x</think>Hi there") []).
  - left. reflexivity.
  - right. split; reflexivity.
Defined.

(** A field that is not a string makes the call throw. *)
Example completion_text_number :
  completion_text
    (VObj [(js "choices",
            VArr [VObj [(js "message", VObj [(js "content", VNum 5)])]])])
  = Throw.
Proof. reflexivity. Qed.

(** ** Line structure of the reply *)

Lemma split_nl_app (a b : jsstring) :
  split_nl (a ++ NL :: b) = split_nl a ++ split_nl b.
Proof.
  induction a as [|c a IH]; [reflexivity|].
  simpl. rewrite IH. destruct (c =? NL)%N; [reflexivity|].
  pose proof (split_nl_not_nil a).
  destruct (split_nl a); [contradiction | reflexivity].
Qed.

Lemma split_nl_lines (s : jsstring) :
  Forall (fun l => split_nl l = [l]) (split_nl s).
Proof.
  induction s as [|c s IH]; simpl; [now constructor|].
  destruct (N.eqb_spec c NL) as [->|Hc]; [now constructor|].
  pose proof (split_nl_not_nil s).
  destruct (split_nl s) as [|l ls]; [contradiction|].
  inversion IH as [|? ? Hl Hls]; subst. constructor; [|exact Hls].
  simpl. destruct (N.eqb_spec c NL); [contradiction|]. now rewrite Hl.
Qed.

Lemma blank_split_nl (s : jsstring) : blank s = forallb blank (split_nl s).
Proof.
  induction s as [|c s IH]; [reflexivity|].
  simpl. destruct (N.eqb_spec c NL) as [->|Hc].
  - simpl. exact IH.
  - pose proof (split_nl_not_nil s).
    destruct (split_nl s) as [|l ls]; [contradiction|].
    simpl in *. rewrite IH. apply andb_assoc.
Qed.

Lemma nonblank_app (a b : list jsstring) :
  nonblank (a ++ b) = nonblank a ++ nonblank b.
Proof. apply filter_app. Qed.

Lemma nonblank_blank (s : jsstring) :
  blank s = true -> nonblank (split_nl s) = [].
Proof.
  rewrite blank_split_nl. unfold nonblank.
  induction (split_nl s) as [|l ls IH]; simpl; [reflexivity|].
  intros H. apply andb_true_iff in H as [-> H]. simpl. now apply IH.
Qed.

Lemma join_nl_cons (x : jsstring) (rest : list jsstring) :
  rest <> [] -> join_nl (x :: rest) = x ++ NL :: join_nl rest.
Proof. destruct rest; [contradiction | reflexivity]. Qed.

Lemma nonblank_join_nl (l : list jsstring) :
  nonblank (split_nl (join_nl l)) = nonblank (flat_map split_nl l).
Proof.
  induction l as [|x rest IH]; [reflexivity|].
  destruct rest as [|y rest].
  - simpl. now rewrite app_nil_r.
  - rewrite join_nl_cons by discriminate.
    rewrite split_nl_app, nonblank_app, IH.
    change (flat_map split_nl (x :: y :: rest))
      with (split_nl x ++ flat_map split_nl (y :: rest)).
    now rewrite nonblank_app.
Qed.

Lemma pushBuf_lines (st : chunker) :
  nonblank (flat_map split_nl (parts (pushBuf st)))
  = nonblank (flat_map split_nl (parts st)) ++ nonblank (split_nl (buf st)).
Proof.
  unfold pushBuf. simpl. rewrite trim_length_pos.
  destruct (blank (buf st)) eqn:E; simpl.
  - rewrite (nonblank_blank _ E). now rewrite app_nil_r.
  - rewrite flat_map_app, nonblank_app. simpl. now rewrite app_nil_r.
Qed.

Lemma joined_lines (b line : jsstring) :
  split_nl line = [line] ->
  nonblank (split_nl (joined b line)) = nonblank (split_nl b) ++ nonblank [line].
Proof.
  intros Hl. unfold joined. destruct b as [|c b]; simpl truthy; cbv iota.
  - now rewrite Hl.
  - now rewrite split_nl_app, nonblank_app, Hl.
Qed.

Section LineStructure.

Variable MAX : nat.

(** The lines that are not blank go through the loop unchanged, as long as
    no line is cut. *)
Lemma chunk_line_lines (st : chunker) (line : jsstring) :
  split_nl line = [line] -> (length line <= MAX)%nat ->
  nonblank (flat_map split_nl (parts (chunk_line MAX st line)))
    ++ nonblank (split_nl (buf (chunk_line MAX st line)))
  = (nonblank (flat_map split_nl (parts st)) ++ nonblank (split_nl (buf st)))
      ++ nonblank [line].
Proof.
  intros Hl Hlen. unfold chunk_line.
  destruct (MAX <? length (joined (buf st) line))%nat.
  - destruct (Nat.ltb_spec MAX (length line)); [lia|].
    cbn [parts buf]. now rewrite pushBuf_lines, Hl.
  - cbn [parts buf]. rewrite joined_lines by exact Hl.
    now rewrite app_assoc.
Qed.

Lemma fold_chunk_line_lines (lines : list jsstring) (st : chunker) :
  Forall (fun l => split_nl l = [l]) lines ->
  Forall (fun l => (length l <= MAX)%nat) lines ->
  let st' := fold_left (chunk_line MAX) lines st in
  nonblank (flat_map split_nl (parts st')) ++ nonblank (split_nl (buf st'))
  = (nonblank (flat_map split_nl (parts st)) ++ nonblank (split_nl (buf st)))
      ++ nonblank lines.
Proof.
  revert st. induction lines as [|l lines IH]; intros st Hl Hlen; simpl.
  - now rewrite app_nil_r.
  - inversion Hl; inversion Hlen; subst.
    rewrite IH by assumption. rewrite chunk_line_lines by assumption.
    rewrite <- app_assoc. f_equal. symmetry. apply (nonblank_app [l] lines).
Qed.

Lemma chunk_nonblank_lines (text : jsstring) :
  text <> [] ->
  Forall (fun l => (length l <= MAX)%nat) (split_nl text) ->
  nonblank_lines (join_nl (chunk MAX (Some text))) = nonblank_lines text.
Proof.
  intros Hne Hlen. unfold nonblank_lines, chunk.
  replace (if truthy text then text else placeholder) with text
    by (destruct text; [contradiction | reflexivity]).
  rewrite nonblank_join_nl, pushBuf_lines.
  now rewrite (fold_chunk_line_lines _ _ (split_nl_lines text) Hlen).
Qed.

End LineStructure.

Lemma join_nl_split_nl (s : jsstring) : join_nl (split_nl s) = s.
Proof.
  induction s as [|c s IH]; [reflexivity|].
  simpl split_nl. pose proof (split_nl_not_nil s) as Hn.
  destruct (c =? NL)%N eqn:E.
  - apply N.eqb_eq in E. subst c. rewrite join_nl_cons by exact Hn.
    now rewrite IH.
  - destruct (split_nl s) as [|l ls]; [contradiction|].
    destruct ls as [|l' ls]; simpl in *; now rewrite IH.
Qed.

Lemma join_nl_app (a b : list jsstring) :
  a <> [] -> b <> [] -> join_nl (a ++ b) = join_nl a ++ NL :: join_nl b.
Proof.
  intros Ha Hb. induction a as [|x a IH]; [contradiction|].
  destruct a as [|y a].
  - simpl app. now apply join_nl_cons.
  - change ((x :: y :: a) ++ b) with (x :: ((y :: a) ++ b)).
    rewrite !join_nl_cons by discriminate.
    rewrite IH by discriminate. now rewrite <- app_assoc.
Qed.

Lemma join_nl_snoc (p : list jsstring) (b l : jsstring) :
  join_nl (p ++ [b ++ NL :: l]) = join_nl ((p ++ [b]) ++ [l]).
Proof.
  rewrite (join_nl_app (p ++ [b]) [l]); [|now destruct p | discriminate].
  destruct p as [|x p]; [reflexivity|].
  rewrite !(join_nl_app (x :: p)) by discriminate.
  simpl join_nl at 2 4 5. now rewrite <- app_assoc.
Qed.

Section ExactLines.

Variable MAX : nat.

Lemma chunk_line_join (st : chunker) (line : jsstring) :
  blank (buf st) = false -> blank line = false -> (length line <= MAX)%nat ->
  blank (buf (chunk_line MAX st line)) = false
  /\ join_nl (parts (chunk_line MAX st line) ++ [buf (chunk_line MAX st line)])
     = join_nl ((parts st ++ [buf st]) ++ [line]).
Proof.
  intros Hb Hl Hlen. unfold chunk_line.
  destruct (MAX <? length (joined (buf st) line))%nat.
  - destruct (Nat.ltb_spec MAX (length line)); [lia|].
    cbn [parts buf]. split; [exact Hl|].
    unfold pushBuf. cbn [parts buf]. now rewrite trim_length_pos, Hb.
  - cbn [parts buf]. split; [now rewrite joined_blank, Hb|].
    unfold joined. destruct (buf st) as [|c b]; [discriminate|].
    simpl truthy. cbv iota. apply join_nl_snoc.
Qed.

Lemma fold_chunk_line_join (lines : list jsstring) (st : chunker) :
  blank (buf st) = false ->
  Forall (fun l => blank l = false) lines ->
  Forall (fun l => (length l <= MAX)%nat) lines ->
  blank (buf (fold_left (chunk_line MAX) lines st)) = false
  /\ join_nl (parts (fold_left (chunk_line MAX) lines st)
                ++ [buf (fold_left (chunk_line MAX) lines st)])
     = join_nl ((parts st ++ [buf st]) ++ lines).
Proof.
  revert st. induction lines as [|l lines IH]; intros st Hb Hnb Hlen.
  - simpl. now rewrite app_nil_r.
  - inversion Hnb; inversion Hlen; subst.
    destruct (chunk_line_join st l) as [Hb' Hj]; try assumption.
    destruct (IH (chunk_line MAX st l)) as [Hb'' Hj']; try assumption.
    simpl fold_left. split; [exact Hb''|]. rewrite Hj'.
    destruct lines as [|l' lines].
    + rewrite app_nil_r. exact Hj.
    + rewrite (join_nl_app (parts (chunk_line MAX st l)
                              ++ [buf (chunk_line MAX st l)]) (l' :: lines));
        [|now destruct (parts (chunk_line MAX st l)) | discriminate].
      rewrite Hj.
      rewrite <- join_nl_app; [|now destruct (parts st) | discriminate].
      now rewrite <- !app_assoc.
Qed.

(** With no blank line and no line to cut, the parts joined by newlines are
    the text. *)
Lemma chunk_join (text : jsstring) :
  Forall (fun l => blank l = false) (split_nl text) ->
  Forall (fun l => (length l <= MAX)%nat) (split_nl text) ->
  join_nl (chunk MAX (Some text)) = text.
Proof.
  intros Hnb Hlen. unfold chunk.
  assert (Hne : truthy text = true).
  { destruct text; [|reflexivity]. inversion Hnb; discriminate. }
  rewrite Hne.
  pose proof (join_nl_split_nl text) as Hjs.
  pose proof (split_nl_not_nil text) as Hsn.
  destruct (split_nl text) as [|l0 ls]; [contradiction|].
  inversion Hnb as [|? ? Hl0 Hls]; inversion Hlen as [|? ? Hn0 Hns]; subst.
  simpl fold_left.
  assert (E : chunk_line MAX {| parts := []; buf := [] |} l0
              = {| parts := []; buf := l0 |}).
  { unfold chunk_line. cbn [parts buf]. change (joined [] l0) with l0.
    destruct (Nat.ltb_spec MAX (length l0)); [lia | reflexivity]. }
  rewrite E.
  destruct (fold_chunk_line_join ls {| parts := []; buf := l0 |})
    as [Hb Hj]; try assumption.
  unfold pushBuf. cbn [parts buf] in *. rewrite trim_length_pos, Hb.
  simpl negb. cbv iota. rewrite Hj. reflexivity.
Qed.

End ExactLines.

(** The claim C8 fails where a line is cut and where a blank buffer is
    dropped: a line of 1901 characters comes back as two lines, neither of
    them the line, and of ["\nfoo"] only ["foo"] comes back. *)
Lemma sendLongReply_parts_lines_lost :
  split_nl (join_nl (sendLongReply_parts (Some (repeat 97%N 1901))))
    <> split_nl (repeat 97%N 1901)
  /\ ~ In (repeat 97%N 1901)
          (split_nl (join_nl (sendLongReply_parts (Some (repeat 97%N 1901)))))
  /\ split_nl (join_nl (sendLongReply_parts (Some (NL :: js "foo"))))
     <> split_nl (NL :: js "foo").
Proof.
  assert (E : split_nl (join_nl (sendLongReply_parts (Some (repeat 97%N 1901))))
              = [repeat 97%N 1900; [97%N]]) by (vm_compute; reflexivity).
  assert (F : split_nl (repeat 97%N 1901) = [repeat 97%N 1901])
    by (vm_compute; reflexivity).
  rewrite E, F. split; [|split].
  - intros H. apply (f_equal (@length jsstring)) in H. discriminate.
  - intros [H|[H|[]]]; apply (f_equal (@length code_unit)) in H;
      rewrite ?repeat_length in H; simpl in H; lia.
  - vm_compute. discriminate.
Qed.

(** C8, amended.  For a text that is not empty and has no line of more than
    1900 characters, the lines of the parts joined by newlines that are not
    blank are the lines of the text that are not blank, in order; when no
    line of the text is blank the joined parts are the text itself. *)
Theorem sendLongReply_parts_lines (text : jsstring) :
  text <> [] ->
  Forall (fun l => (length l <= 1900)%nat) (split_nl text) ->
  nonblank_lines (join_nl (sendLongReply_parts (Some text)))
  = nonblank_lines text
  /\ (Forall (fun l => blank l = false) (split_nl text) ->
      join_nl (sendLongReply_parts (Some text)) = text).
Proof.
  intros Hne Hlen. split.
  - now apply chunk_nonblank_lines.
  - intros Hnb. now apply chunk_join.
Qed.

Lemma sendLongReply_parts_lines_witness :
  let text := NL :: js "Hi there" ++ NL :: NL :: js "Bye" in
  text <> []
  /\ Forall (fun l => (length l <= 1900)%nat) (split_nl text)
  /\ nonblank_lines (join_nl (sendLongReply_parts (Some text)))
     = [js "Hi there"; js "Bye"]
  /\ join_nl (sendLongReply_parts (Some (js "Hi there" ++ NL :: js "Bye")))
     = js "Hi there" ++ NL :: js "Bye".
Proof.
  intros text.
  assert (Hne : text <> []) by discriminate.
  assert (Hlen : Forall (fun l => (length l <= 1900)%nat) (split_nl text)).
  { repeat (constructor; [simpl; lia|]). constructor. }
  assert (Hne' : js "Hi there" ++ NL :: js "Bye" <> []) by discriminate.
  assert (Hlen' : Forall (fun l => (length l <= 1900)%nat)
                    (split_nl (js "Hi there" ++ NL :: js "Bye"))).
  { repeat (constructor; [simpl; lia|]). constructor. }
  split; [exact Hne|]. split; [exact Hlen|]. split.
  - etransitivity; [apply (proj1 (sendLongReply_parts_lines text Hne Hlen))|].
    reflexivity.
  - apply (proj2 (sendLongReply_parts_lines _ Hne' Hlen')).
    repeat (constructor; [reflexivity|]). constructor.
Defined.

(** * Further properties of the script *)

(** ** Conversation memory *)

Section TrimHistoryMore.

Variable MAX_HISTORY_MESSAGES : Z.
Variable MAX_HISTORY_CHARS : Z.





Lemma suffix_keeps_last (A : Type) (l dropped kept : list A) (x : A) :
  l ++ [x] = dropped ++ kept -> kept <> [] -> exists pre, kept = pre ++ [x].
Proof.
  intros H Hne. destruct (exists_last Hne) as [pre [y ->]].
  rewrite app_assoc in H. apply app_inj_tail in H as [_ ->]. now exists pre.
Qed.

End TrimHistoryMore.



(** [trimHistory] returns for a message bound that is a number and not
    negative and a character bound that is a number, and what it leaves is
    within the bounds. *)
Lemma trimHistory_total (MAX_HISTORY_MESSAGES MAX_HISTORY_CHARS : number)
  (c : conversation) :
  le_num 0 MAX_HISTORY_MESSAGES = true -> MAX_HISTORY_CHARS <> NaN ->
  exists msgs,
    trimHistory MAX_HISTORY_MESSAGES MAX_HISTORY_CHARS c
    = Some {| messages := msgs |}
    /\ within_bounds MAX_HISTORY_MESSAGES MAX_HISTORY_CHARS msgs.
Proof.
  intros Hmax Hnum.
  destruct (trim_count_total MAX_HISTORY_MESSAGES (messages c) Hmax)
    as [kept [dropped [E [_ Hlen]]]].
  unfold trimHistory. rewrite E. eexists. split; [reflexivity|]. split.
  - pose proof (trim_chars_length MAX_HISTORY_CHARS kept) as Hl.
    apply (le_num_mono (Z.of_nat (length kept))); [lia | exact Hlen].
  - now apply trim_chars_budget.
Qed.







(** Unless [1 > MAX_HISTORY_MESSAGES], the first loop stops before the
    newest turn. *)
Lemma trim_count_keeps_last (MAX_HISTORY_MESSAGES : number)
  (msgs : list message) (m : message) :
  gt_num 1 MAX_HISTORY_MESSAGES = false ->
  exists pre, trim_count MAX_HISTORY_MESSAGES (msgs ++ [m]) = Some (pre ++ [m]).
Proof.
  intros Hmax. induction msgs as [|x rest IH].
  - exists []. simpl app. rewrite trim_count_cons.
    change (Z.of_nat (length [m])) with 1%Z. now rewrite Hmax.
  - change ((x :: rest) ++ [m]) with (x :: (rest ++ [m])).
    rewrite trim_count_cons.
    destruct (gt_num (Z.of_nat (length (x :: rest ++ [m]))) MAX_HISTORY_MESSAGES);
      [exact IH | now exists (x :: rest)].
Qed.

Lemma append_last (MAX_HISTORY_MESSAGES MAX_HISTORY_CHARS : number)
  (c : conversation) (m : message) :
  gt_num 1 MAX_HISTORY_MESSAGES = false ->
  exists c' pre,
    append MAX_HISTORY_MESSAGES MAX_HISTORY_CHARS c m = Some c'
    /\ messages c' = pre ++ [m].
Proof.
  intros Hmax. unfold append, trimHistory. simpl messages.
  destruct (trim_count_keeps_last MAX_HISTORY_MESSAGES (messages c) m Hmax)
    as [p ->].
  destruct (trim_chars_keeps_last MAX_HISTORY_CHARS p m) as [pre Hp].
  eexists. exists pre. split; [reflexivity | exact Hp].
Qed.





(** ** Text sanitizer *)

Lemma is_nl_eq (c : code_unit) : is_nl c = true -> c = NL.
Proof. apply N.eqb_eq. Qed.

Lemma lead_nl_three (s : jsstring) :
  (3 <= lead_nl s)%nat <-> exists b, s = NL :: NL :: NL :: b.
Proof.
  split.
  - destruct s as [|x [|y [|z b]]]; simpl;
      repeat match goal with
             | |- context [is_nl ?c] => destruct (is_nl c) eqn:?; simpl
             end; try lia.
    intros _. exists b.
    repeat match goal with H : is_nl _ = true |- _ => apply is_nl_eq in H end.
    now subst.
  - intros [b ->]. simpl. lia.
Qed.

(** [no_match re_newlines] says that there is no run of three newlines. *)
Lemma no_match_newlines_iff (s : jsstring) (p : option code_unit) :
  no_match re_newlines p s = true
  <-> (forall a b, s <> a ++ NL :: NL :: NL :: b).
Proof.
  split.
  - intros H a b ->. apply no_match_newlines_app in H as [_ H].
    rewrite no_match_newlines_cons in H. simpl in H. discriminate.
  - revert p. induction s as [|c s IH]; intros p H; [reflexivity|].
    rewrite no_match_newlines_cons. apply andb_true_iff. split.
    + apply Nat.ltb_lt.
      destruct (Nat.lt_ge_cases (lead_nl (c :: s)) 3) as [Hlt|Hge]; [exact Hlt|].
      apply lead_nl_three in Hge as [b Hb]. exfalso. now apply (H [] b).
    + apply IH. intros a b E. apply (H (c :: a) b). simpl. now f_equal.
Qed.

(** What the sanitizer returns has no white space at either end and no run
    of three newlines. *)
Theorem stripThinkBlocks_normalized (x : jsstring) :
  trim (stripThinkBlocks x) = stripThinkBlocks x
  /\ (forall a b, stripThinkBlocks x <> a ++ NL :: NL :: NL :: b).
Proof.
  split; [apply stripThinkBlocks_trimmed|].
  apply (no_match_newlines_iff _ None), stripThinkBlocks_no_newline_run.
Qed.

(** The sanitizer only removes: what it returns is never longer than what
    it was given. *)
Theorem stripThinkBlocks_length (x : jsstring) :
  (length (stripThinkBlocks x) <= length x)%nat.
Proof.
  unfold stripThinkBlocks. destruct (truthy x); simpl negb; cbv iota; [|lia].
  pose proof (replace_all_length re_think_block x) as L1.
  remember (replace_all re_think_block [] x) as s1.
  pose proof (replace_all_length re_think_tag s1) as L2.
  remember (replace_all re_think_tag [] s1) as s2.
  pose proof (replace_all_length re_reasoning_block s2) as L3.
  remember (replace_all re_reasoning_block [] s2) as s3.
  pose proof (replace_all_length re_reasoning_tag s3) as L4.
  remember (replace_all re_reasoning_tag [] s3) as s4.
  pose proof (collapse_length (length s4) s4 None (le_n _)) as L5.
  fold (replace_all re_newlines [NL; NL] s4) in L5.
  pose proof (trim_length (replace_all re_newlines [NL; NL] s4)) as L6.
  clear - L1 L2 L3 L4 L5 L6. lia.
Qed.

Lemma canonicalize_lt (c : code_unit) :
  (canonicalize c =? canonicalize (N_of_ascii "<"))%N = true -> c = 60%N.
Proof.
  unfold canonicalize. change (N_of_ascii "<") with 60%N. simpl.
  destruct ((97 <=? c) && (c <=? 122))%N eqn:E; intros H;
    apply N.eqb_eq in H; [|exact H].
  apply andb_true_iff in E as [E1 E2].
  apply N.leb_le in E1. lia.
Qed.

(** A pattern that opens with [<] matches nowhere in a string without [<]. *)
Lemma no_lt_no_match (r : regex) (s : jsstring) :
  no_lt s = true -> forall prev, no_match (lit_i "<" :: r) prev s = true.
Proof.
  induction s as [|c s IH]; intros H prev; [reflexivity|].
  simpl in H. apply andb_true_iff in H as [Hc Hs].
  rewrite no_match_cons. unfold lit_i at 1. rewrite exec_chr.
  destruct (canonicalize c =? canonicalize (N_of_ascii "<"))%N eqn:E.
  - apply canonicalize_lt in E. subst c. discriminate.
  - now apply IH.
Qed.

Lemma no_lt_tag_free (s : jsstring) : no_lt s = true -> tag_free s = true.
Proof.
  intros H. unfold tag_free, re_think_tag, re_reasoning_tag.
  now rewrite !no_lt_no_match.
Qed.

(** Text without [<], without white space at its ends and without a run of
    three newlines goes through the sanitizer unchanged. *)
Theorem stripThinkBlocks_clean_text (x : jsstring) :
  no_lt x = true -> trim x = x ->
  (forall a b, x <> a ++ NL :: NL :: NL :: b) ->
  stripThinkBlocks x = x.
Proof.
  intros Hlt Htrim Hnl. apply stripThinkBlocks_fixed.
  - now apply no_lt_tag_free.
  - now apply no_match_newlines_iff.
  - exact Htrim.
Qed.

Lemma stripThinkBlocks_clean_text_witness :
  no_lt (js "Hi there") = true /\ trim (js "Hi there") = js "Hi there"
  /\ stripThinkBlocks (js "Hi there") = js "Hi there".
Proof.
  assert (H1 : no_lt (js "Hi there") = true) by reflexivity.
  assert (H2 : trim (js "Hi there") = js "Hi there") by reflexivity.
  split; [exact H1|]. split; [exact H2|].
  apply (stripThinkBlocks_clean_text _ H1 H2).
  apply (no_match_newlines_iff _ None). reflexivity.
Defined.

Lemma exec_lit_i (a : ascii) (r : regex) (prev : option code_unit)
  (c : code_unit) (s : jsstring) :
  (canonicalize c =? canonicalize (N_of_ascii a))%N = true ->
  exec (lit_i a :: r) prev (c :: s) = exec r (Some c) s.
Proof. intros H. unfold lit_i. rewrite exec_chr. now rewrite H. Qed.

Lemma exec_bnd (r : regex) (prev : option code_unit) (s : jsstring) :
  xorb (is_word_opt prev) (is_word_opt (hd_error s)) = true ->
  exec (Bnd :: r) prev s = exec r prev s.
Proof. intros H. simpl. now rewrite H. Qed.

(** A lazy [[\s\S]*?] before [<] runs over a text without [<] up to the
    first [<] where the rest of the pattern matches. *)
Lemma exec_lazy_to_lt (r : regex) (body t x : jsstring) :
  no_lt body = true ->
  (forall prev, exec (lit_i "<" :: r) prev (60%N :: t) = Some x) ->
  forall prev,
    exec (Star false any_char :: lit_i "<" :: r) prev (body ++ 60%N :: t)
    = Some x.
Proof.
  intros Hb Hx. induction body as [|c body IH]; intros prev.
  - simpl app. rewrite exec_star_lazy. now rewrite Hx.
  - simpl in Hb. apply andb_true_iff in Hb as [Hc Hb].
    simpl app. rewrite exec_star_lazy.
    unfold lit_i at 1. rewrite exec_chr.
    destruct (canonicalize c =? canonicalize (N_of_ascii "<"))%N eqn:E.
    + apply canonicalize_lt in E. subst c. discriminate.
    + unfold any_char at 1. fold (lit_i "<"). now apply IH.
Qed.

(** The block pattern takes a well-formed block as a whole. *)
Lemma exec_think_block (body rest : jsstring) (prev : option code_unit) :
  no_lt body = true ->
  exec re_think_block prev (js "<think>" ++ body ++ js "</think>" ++ rest)
  = Some rest.
Proof.
  intros Hb. unfold re_think_block.
  change (js "<think>" ++ body ++ js "</think>" ++ rest)
    with (60 :: 116 :: 104 :: 105 :: 110 :: 107 :: 62
            :: body ++ 60 :: 47 :: 116 :: 104 :: 105 :: 110 :: 107 :: 62 :: rest)%N.
  change (word_i "think")
    with [lit_i "t"; lit_i "h"; lit_i "i"; lit_i "n"; lit_i "k"].
  cbn [app].
  do 6 rewrite exec_lit_i by reflexivity.
  rewrite exec_bnd by reflexivity.
  rewrite exec_star_greedy_cons. change (not_gt 62%N) with false. cbv iota.
  rewrite exec_lit_i by reflexivity.
  apply exec_lazy_to_lt; [exact Hb|].
  intros p. do 8 rewrite exec_lit_i by reflexivity. reflexivity.
Qed.

(** The scan of a pattern that starts with a character does not look at the
    character before the string. *)
Lemma replace_from_prev (r : regex) (rep s : jsstring)
  (p1 p2 : option code_unit) :
  starts_with_char r = true ->
  replace_from r rep 0 p1 s = replace_from r rep 0 p2 s.
Proof.
  intros Hr. destruct r as [|[q| | | |] r]; try discriminate.
  destruct s as [|c s]; [reflexivity|].
  rewrite !replace_from_cons, !exec_chr. reflexivity.
Qed.

(** A well-formed [<think>...</think>] block at the start of the text is
    removed with everything in it: the text is sanitized as if the block
    were not there. *)
Theorem stripThinkBlocks_removes_block (body rest : jsstring) :
  no_lt body = true ->
  stripThinkBlocks (js "<think>" ++ body ++ js "</think>" ++ rest)
  = stripThinkBlocks rest.
Proof.
  intros Hb.
  assert (E : replace_all re_think_block []
                (js "<think>" ++ body ++ js "</think>" ++ rest)
              = replace_all re_think_block [] rest).
  { unfold replace_all.
    destruct (replace_match re_think_block [] None _ rest
                (exec_think_block body rest None Hb)) as [prev' ->].
    - rewrite !length_app. simpl. lia.
    - simpl app. now apply replace_from_prev. }
  unfold stripThinkBlocks at 1.
  change (truthy (js "<think>" ++ body ++ js "</think>" ++ rest)) with true.
  simpl negb. cbv iota. rewrite E.
  unfold stripThinkBlocks. destruct rest; reflexivity.
Qed.

Lemma stripThinkBlocks_removes_block_witness :
  no_lt (js "x") = true
  /\ stripThinkBlocks (js "<think>x</think>Hi there") = js "Hi there".
Proof.
  assert (H : no_lt (js "x") = true) by reflexivity.
  split; [exact H|].
  exact (eq_trans (stripThinkBlocks_removes_block (js "x") (js "Hi there") H)
           eq_refl).
Defined.

(** ** Reply chunker *)

Section ChunkerMore.

Variable MAX : nat.
Hypothesis MAX_pos : (0 < MAX)%nat.

Lemma slices_not_empty (fuel i : nat) (line : jsstring) :
  Forall (fun p => p <> []) (slices MAX fuel i line).
Proof.
  revert i; induction fuel as [|fuel IH]; intros i; [constructor|].
  rewrite slices_S. destruct (Nat.ltb_spec i (length line)); constructor.
  - unfold slice. intros E. apply (f_equal (@length code_unit)) in E.
    rewrite length_firstn, length_skipn in E. simpl in E. lia.
  - apply IH.
Qed.

Lemma pushBuf_not_empty (st : chunker) :
  Forall (fun p => p <> []) (parts st) ->
  Forall (fun p => p <> []) (parts (pushBuf st)).
Proof.
  intros H. unfold pushBuf. cbn [parts].
  destruct (buf st) as [|c b] eqn:E; [exact H|].
  destruct (0 <? _)%nat; [|exact H].
  apply Forall_app. split; [exact H|]. constructor; [discriminate | constructor].
Qed.

Lemma chunk_line_not_empty (st : chunker) (line : jsstring) :
  Forall (fun p => p <> []) (parts st) ->
  Forall (fun p => p <> []) (parts (chunk_line MAX st line)).
Proof.
  intros H. unfold chunk_line.
  destruct (MAX <? length (joined (buf st) line))%nat; [|exact H].
  pose proof (pushBuf_not_empty st H) as Hp.
  destruct (MAX <? length line)%nat; cbn [parts]; [|exact Hp].
  apply Forall_app. split; [exact Hp | apply slices_not_empty].
Qed.

Lemma chunk_not_empty (text : option jsstring) :
  Forall (fun p => p <> []) (chunk MAX text).
Proof.
  unfold chunk. apply pushBuf_not_empty.
  generalize (split_nl match text with
                       | Some s => if truthy s then s else placeholder
                       | None => placeholder
                       end).
  intros lines.
  assert (H : Forall (fun p : jsstring => p <> [])
                (parts {| parts := []; buf := [] |})) by constructor.
  revert H. generalize {| parts := []; buf := [] |}.
  induction lines as [|l lines IH]; intros st H; simpl; [exact H|].
  apply IH. now apply chunk_line_not_empty.
Qed.

(** A line that is cut gives full pieces and then one last piece. *)
Lemma slices_shape (line : jsstring) (fuel : nat) :
  forall i, (i < length line)%nat -> (length line - i <= fuel)%nat ->
  exists pieces last,
    slices MAX fuel i line = pieces ++ [last]
    /\ Forall (fun p => length p = MAX) pieces
    /\ (0 < length last <= MAX)%nat.
Proof.
  induction fuel as [|fuel IH]; intros i Hi Hfuel; [lia|].
  rewrite slices_S. destruct (Nat.ltb_spec i (length line)); [|lia].
  assert (Hl : length (slice line i (i + MAX))
               = Nat.min MAX (length line - i)).
  { unfold slice. rewrite length_firstn, length_skipn. f_equal. lia. }
  destruct (Nat.lt_ge_cases (i + MAX) (length line)) as [Hlt|Hge].
  - destruct (IH (i + MAX)%nat) as [pieces [last [E [Hp Hlast]]]]; try lia.
    exists (slice line i (i + MAX) :: pieces), last. rewrite E.
    split; [reflexivity|]. split; [|exact Hlast].
    constructor; [lia | exact Hp].
  - rewrite slices_past by lia.
    exists [], (slice line i (i + MAX)).
    split; [reflexivity|]. split; [constructor | lia].
Qed.

Lemma chunk_one_long_line (line : jsstring) :
  (MAX < length line)%nat -> (forall c, In c line -> c <> NL) ->
  chunk MAX (Some line) = slices MAX (length line) 0 line.
Proof.
  intros Hlen Hnl. unfold chunk.
  replace (truthy line) with true by (destruct line; [simpl in Hlen; lia | reflexivity]).
  rewrite split_nl_one_line by exact Hnl.
  simpl fold_left. unfold chunk_line. cbn [buf].
  change (joined [] line) with line.
  destruct (Nat.ltb_spec MAX (length line)); [|lia].
  unfold pushBuf. simpl. reflexivity.
Qed.

Lemma join_nl_head_length (l : jsstring) (ls : list jsstring) :
  (length l <= length (join_nl (l :: ls)))%nat.
Proof.
  destruct ls as [|x ls]; [simpl; lia|].
  rewrite join_nl_cons by discriminate. rewrite length_app. lia.
Qed.

(** While everything fits, the lines gather in the buffer. *)
Lemma fold_chunk_line_fits_buffer (ls : list jsstring) :
  forall b, b <> [] -> (length (join_nl (b :: ls)) <= MAX)%nat ->
  fold_left (chunk_line MAX) ls {| parts := []; buf := b |}
  = {| parts := []; buf := join_nl (b :: ls) |}.
Proof.
  induction ls as [|l ls IH]; intros b Hb Hlen; [reflexivity|].
  rewrite join_nl_cons in * by discriminate.
  simpl fold_left. unfold chunk_line at 2. cbn [parts buf].
  assert (Hj : joined b l = b ++ NL :: l) by (destruct b; [contradiction | reflexivity]).
  rewrite Hj.
  pose proof (join_nl_head_length l ls) as Hh.
  assert (Hfit : (length (b ++ NL :: l) <= MAX)%nat).
  { rewrite length_app in *. simpl length in *. lia. }
  destruct (Nat.ltb_spec MAX (length (b ++ NL :: l))); [lia|].
  rewrite IH.
  - f_equal. destruct ls as [|x ls]; [reflexivity|].
    rewrite !join_nl_cons by discriminate. rewrite <- app_assoc. reflexivity.
  - now destruct b.
  - destruct ls as [|x ls]; [exact Hfit|].
    rewrite !join_nl_cons in * by discriminate.
    rewrite <- app_assoc. exact Hlen.
Qed.

Lemma chunk_short_text (text : jsstring) :
  text <> [] -> trim text = text -> (length text <= MAX)%nat ->
  chunk MAX (Some text) = [text].
Proof.
  intros Hne Htrim Hlen. unfold chunk.
  replace (truthy text) with true by (destruct text; [contradiction | reflexivity]).
  pose proof (trim_head text) as Hh. rewrite Htrim in Hh.
  pose proof (join_nl_split_nl text) as Hj.
  assert (Hnb : blank text = false).
  { destruct text as [|c t]; [contradiction|]. simpl. now rewrite Hh. }
  assert (H0 : exists l0 ls, split_nl text = l0 :: ls /\ l0 <> []).
  { destruct text as [|c t]; [contradiction|]. simpl.
    destruct (N.eqb_spec c NL) as [->|_]; [discriminate|].
    pose proof (split_nl_not_nil t).
    destruct (split_nl t) as [|l ls]; [contradiction|].
    exists (c :: l), ls. split; [reflexivity | discriminate]. }
  destruct H0 as [l0 [ls [E Hl0]]]. rewrite E in *.
  simpl fold_left.
  assert (E0 : chunk_line MAX {| parts := []; buf := [] |} l0
               = {| parts := []; buf := l0 |}).
  { unfold chunk_line. cbn [parts buf]. change (joined [] l0) with l0.
    pose proof (join_nl_head_length l0 ls).
    destruct (Nat.ltb_spec MAX (length l0)); [|reflexivity].
    rewrite Hj in *. lia. }
  rewrite E0, fold_chunk_line_fits_buffer; [|exact Hl0|];
    unfold jsstring in *; rewrite Hj; [|exact Hlen].
  unfold pushBuf. cbn [parts buf]. rewrite trim_length_pos, Hnb. reflexivity.
Qed.

End ChunkerMore.

(** No part is the empty string. *)
Theorem sendLongReply_parts_not_empty_strings (text : option jsstring) :
  Forall (fun p => p <> []) (sendLongReply_parts text).
Proof. apply chunk_not_empty. lia. Qed.

(** A text as the caller passes it (not empty, no white space at its ends)
    that fits in 1900 characters is sent as one part, unchanged. *)
Theorem sendLongReply_parts_short (text : jsstring) :
  text <> [] -> trim text = text -> (length text <= 1900)%nat ->
  sendLongReply_parts (Some text) = [text].
Proof. intros. apply chunk_short_text; [lia | assumption ..]. Qed.

Lemma sendLongReply_parts_short_witness :
  js "Hi there" <> [] /\ trim (js "Hi there") = js "Hi there"
  /\ (length (js "Hi there") <= 1900)%nat
  /\ sendLongReply_parts (Some (js "Hi there")) = [js "Hi there"].
Proof.
  assert (H1 : js "Hi there" <> []) by discriminate.
  assert (H2 : trim (js "Hi there") = js "Hi there") by reflexivity.
  assert (H3 : (length (js "Hi there") <= 1900)%nat) by (simpl; lia).
  split; [exact H1|]. split; [exact H2|]. split; [exact H3|].
  exact (sendLongReply_parts_short _ H1 H2 H3).
Defined.

(** A single line of more than 1900 characters is cut into pieces of exactly
    1900 characters and one last piece of at most 1900; no character is lost
    or added. *)
Theorem sendLongReply_parts_long_line (line : jsstring) :
  (1900 < length line)%nat -> (forall c, In c line -> c <> NL) ->
  exists pieces last,
    sendLongReply_parts (Some line) = pieces ++ [last]
    /\ Forall (fun p => length p = 1900%nat) pieces
    /\ (0 < length last <= 1900)%nat
    /\ concat (sendLongReply_parts (Some line)) = line.
Proof.
  intros Hlen Hnl. unfold sendLongReply_parts.
  rewrite chunk_one_long_line by (assumption || lia).
  destruct (slices_shape 1900 ltac:(lia) line (length line) 0)
    as [pieces [last [E [Hp Hl]]]]; try lia.
  exists pieces, last. split; [exact E|]. split; [exact Hp|].
  split; [exact Hl|].
  rewrite slices_concat by lia. reflexivity.
Qed.

Lemma sendLongReply_parts_long_line_witness :
  (1900 < length (repeat 97%N 1901))%nat
  /\ (forall c, In c (repeat 97%N 1901) -> c <> NL)
  /\ exists pieces last,
       sendLongReply_parts (Some (repeat 97%N 1901)) = pieces ++ [last]
       /\ Forall (fun p => length p = 1900%nat) pieces
       /\ (0 < length last <= 1900)%nat
       /\ concat (sendLongReply_parts (Some (repeat 97%N 1901)))
          = repeat 97%N 1901.
Proof.
  assert (Hlen : (1900 < length (repeat 97%N 1901))%nat)
    by (rewrite repeat_length; lia).
  assert (Hnl : forall c, In c (repeat 97%N 1901) -> c <> NL).
  { intros c Hc. apply repeat_spec in Hc. subst c. discriminate. }
  split; [exact Hlen|]. split; [exact Hnl|].
  now apply sendLongReply_parts_long_line.
Defined.

(** ** System prompt *)

(** Setting the prompt and reading it back: a prompt that is not blank comes
    back trimmed, a blank one gives the built-in prompt. *)
Theorem systemprompt_command_get (st : state) (prompt : jsstring)
  (resetContext : bool) :
  getSystemPrompt (systemprompt_command st prompt resetContext)
  = if blank prompt then SYSTEM_PROMPT else trim prompt.
Proof.
  unfold getSystemPrompt, systemprompt_command. cbn [globalSystemPrompt].
  destruct (blank prompt) eqn:E.
  - apply trim_nil_iff in E. rewrite E. reflexivity.
  - destruct (trim prompt) as [|c t] eqn:T.
    + apply trim_nil_iff in T. congruence.
    + simpl Nat.eqb. cbv iota. rewrite <- T, trim_idem, T. reflexivity.
Qed.

(** ** Endpoint URL *)

Lemma buildChatCompletionsUrl_base (e : env) :
  env_OPENAI_API_URL e = None \/ env_OPENAI_API_URL e = Some [] ->
  buildChatCompletionsUrl e =
  if endsWith (OPENAI_BASE_URL e) (js "/v1")
  then OPENAI_BASE_URL e ++ js "/chat/completions"
  else OPENAI_BASE_URL e ++ js "/v1/chat/completions".
Proof.
  intros H. unfold buildChatCompletionsUrl, OPENAI_API_URL.
  assert (E : replace_first re_trailing_slashes [] (OPENAI_BASE_URL e)
              = OPENAI_BASE_URL e).
  { unfold OPENAI_BASE_URL, replace_first.
    apply replace_trailing_slashes_fixed.
    now destruct (replace_trailing_slashes
                    (env_or (env_OPENAI_BASE_URL e)
                       (env_or (env_NOVITA_BASE_URL e)
                          (js "https://api.openai.com/v1"))) None)
      as [tail [_ [_ Hno]]]. }
  rewrite E. destruct H as [->| ->]; reflexivity.
Qed.

(** Without an override the endpoint always ends in [/v1/chat/completions],
    whatever the base URL. *)
Theorem buildChatCompletionsUrl_suffix (e : env) :
  env_OPENAI_API_URL e = None \/ env_OPENAI_API_URL e = Some [] ->
  exists pre, buildChatCompletionsUrl e = pre ++ js "/v1/chat/completions".
Proof.
  intros H. rewrite (buildChatCompletionsUrl_base e H).
  destruct (endsWith (OPENAI_BASE_URL e) (js "/v1")) eqn:E.
  - apply endsWith_spec in E as [pre ->]. exists pre.
    now rewrite <- app_assoc.
  - now exists (OPENAI_BASE_URL e).
Qed.

Lemma buildChatCompletionsUrl_suffix_witness :
  exists pre,
    buildChatCompletionsUrl
      {| env_OPENAI_BASE_URL := Some (js "https://host/openai/");
         env_NOVITA_BASE_URL := None; env_OPENAI_API_URL := None |}
    = pre ++ js "/v1/chat/completions".
Proof. apply buildChatCompletionsUrl_suffix. left. reflexivity. Defined.

(** The part left of the slashes at the end is determined by the string. *)
Lemma strip_slashes_unique (c1 t1 c2 t2 : jsstring) :
  c1 ++ t1 = c2 ++ t2 ->
  forallb is_slash t1 = true -> forallb is_slash t2 = true ->
  ~ (exists pre, c1 = pre ++ js "/") -> ~ (exists pre, c2 = pre ++ js "/") ->
  c1 = c2.
Proof.
  intros E H1 H2 N1 N2.
  apply app_eq_app in E as [l [[-> ->]|[-> ->]]].
  - destruct l as [|x l]; [now rewrite app_nil_r|].
    exfalso. apply N1. apply ends_with_slash; [discriminate|].
    rewrite forallb_app in H2. now apply andb_true_iff in H2 as [H2 _].
  - destruct l as [|x l]; [now rewrite app_nil_r|].
    exfalso. apply N2. apply ends_with_slash; [discriminate|].
    rewrite forallb_app in H1. now apply andb_true_iff in H1 as [H1 _].
Qed.

Lemma replace_trailing_slashes_app (b slashes : jsstring) :
  forallb is_slash slashes = true ->
  replace_first re_trailing_slashes [] (b ++ slashes)
  = replace_first re_trailing_slashes [] b.
Proof.
  intros Hs. unfold replace_first.
  destruct (replace_trailing_slashes (b ++ slashes) None) as [t1 [E1 [H1 N1]]].
  destruct (replace_trailing_slashes b None) as [t2 [E2 [H2 N2]]].
  apply (strip_slashes_unique _ t1 _ (t2 ++ slashes)); try assumption.
  - rewrite <- E1. rewrite E2 at 1. now rewrite app_assoc.
  - rewrite forallb_app, H2, Hs. reflexivity.
Qed.

(** Slashes at the end of the configured base URL make no difference. *)
Theorem buildChatCompletionsUrl_trailing_slashes (b slashes : jsstring)
  (novita override : option jsstring) :
  b <> [] -> forallb is_slash slashes = true ->
  buildChatCompletionsUrl
    {| env_OPENAI_BASE_URL := Some (b ++ slashes);
       env_NOVITA_BASE_URL := novita; env_OPENAI_API_URL := override |}
  = buildChatCompletionsUrl
      {| env_OPENAI_BASE_URL := Some b;
         env_NOVITA_BASE_URL := novita; env_OPENAI_API_URL := override |}.
Proof.
  intros Hb Hs. unfold buildChatCompletionsUrl, OPENAI_BASE_URL, OPENAI_API_URL.
  cbn [env_OPENAI_BASE_URL env_NOVITA_BASE_URL env_OPENAI_API_URL].
  assert (E1 : env_or (Some (b ++ slashes))
                 (env_or novita (js "https://api.openai.com/v1"))
               = b ++ slashes) by (destruct b; [contradiction | reflexivity]).
  assert (E2 : env_or (Some b) (env_or novita (js "https://api.openai.com/v1"))
               = b) by (destruct b; [contradiction | reflexivity]).
  rewrite E1, E2, replace_trailing_slashes_app by exact Hs. reflexivity.
Qed.

Lemma buildChatCompletionsUrl_trailing_slashes_witness :
  js "https://host/openai" <> [] /\ forallb is_slash (js "//") = true
  /\ buildChatCompletionsUrl
       {| env_OPENAI_BASE_URL := Some (js "https://host/openai" ++ js "//");
          env_NOVITA_BASE_URL := None; env_OPENAI_API_URL := None |}
     = buildChatCompletionsUrl
         {| env_OPENAI_BASE_URL := Some (js "https://host/openai");
            env_NOVITA_BASE_URL := None; env_OPENAI_API_URL := None |}.
Proof.
  assert (H1 : js "https://host/openai" <> []) by discriminate.
  assert (H2 : forallb is_slash (js "//") = true) by reflexivity.
  split; [exact H1|]. split; [exact H2|].
  exact (buildChatCompletionsUrl_trailing_slashes _ _ None None H1 H2).
Defined.

(** ** Completion response *)

Lemma stripThinkBlocks_value_cases (v : value) :
  (not_sanitizable v = true /\ stripThinkBlocks_value v = Throw)
  \/ (not_sanitizable v = false
      /\ exists w, stripThinkBlocks_value v = Ok w
                   /\ (value_truthy w = false \/ exists s, w = VStr s)).
Proof.
  unfold not_sanitizable, stripThinkBlocks_value.
  destruct v as [| |b|n|s|l|f]; simpl.
  - right. split; [reflexivity|]. eexists. split; [reflexivity | now left].
  - right. split; [reflexivity|]. eexists. split; [reflexivity | now left].
  - destruct b; simpl; [now left|].
    right. split; [reflexivity|]. eexists. split; [reflexivity | now left].
  - destruct (n =? 0)%Z eqn:E; simpl; [|now left].
    right. split; [reflexivity|]. eexists. split; [reflexivity|].
    left. simpl. now rewrite E.
  - right. split; [apply andb_false_r|].
    destruct s as [|c s]; simpl; eexists; (split; [reflexivity|]);
      [now left | right; now eexists].
  - now left.
  - now left.
Qed.

Lemma or_value_string (w1 w2 : value) :
  (value_truthy w1 = false \/ exists s, w1 = VStr s) ->
  (value_truthy w2 = false \/ exists s, w2 = VStr s) ->
  exists s, or_value (or_value w1 w2) (VStr []) = VStr s.
Proof.
  intros H1 H2. unfold or_value.
  destruct (value_truthy w1) eqn:T1.
  - rewrite T1. destruct H1 as [H1|[s ->]]; [discriminate | now exists s].
  - destruct (value_truthy w2) eqn:T2; [|now exists []].
    destruct H2 as [H2|[s ->]]; [discriminate | now exists s].
Qed.

(** Reading the response throws exactly when the primary content or
    [reasoning_content] is truthy and not a string; otherwise it returns. *)
Theorem completion_text_throws (data : value) :
  completion_text data = Throw
  <-> not_sanitizable (rawContent data) = true
      \/ not_sanitizable (rawReasoning data) = true.
Proof.
  unfold completion_text.
  destruct (stripThinkBlocks_value_cases (rawContent data))
    as [[N1 ->]|[N1 [w1 [-> H1]]]].
  - split; [now left | reflexivity].
  - destruct (stripThinkBlocks_value_cases (rawReasoning data))
      as [[N2 ->]|[N2 [w2 [-> H2]]]].
    + split; [now right | reflexivity].
    + destruct (or_value_string w1 w2 H1 H2) as [s ->].
      rewrite N1, N2. split; [discriminate | intros [H|H]; discriminate].
Qed.

(** A response without a first choice (no [choices], an empty array, a
    [null]) is not an error: the text is the empty string. *)
Theorem completion_text_no_choice (data : value) :
  nullish (choice0 data) = true -> completion_text data = Ok [].
Proof.
  intros H.
  unfold completion_text, rawContent, rawReasoning, message_of, opt_get.
  rewrite H. reflexivity.
Qed.

Lemma completion_text_no_choice_witness :
  nullish (choice0 (VObj [(js "choices", VArr [])])) = true
  /\ completion_text (VObj [(js "choices", VArr [])]) = Ok [].
Proof.
  assert (H : nullish (choice0 (VObj [(js "choices", VArr [])])) = true)
    by reflexivity.
  split; [exact H | exact (completion_text_no_choice _ H)].
Defined.

(** ** Request headers *)

Lemma jsstring_eqb_refl (a : jsstring) : jsstring_eqb a a = true.
Proof. now apply jsstring_eqb_eq. Qed.

Lemma jsstring_eqb_neq (a b : jsstring) : a <> b -> jsstring_eqb a b = false.
Proof.
  intros H. destruct (jsstring_eqb a b) eqn:E; [|reflexivity].
  apply jsstring_eqb_eq in E. contradiction.
Qed.

Lemma lookup_obj_set_same (k : jsstring) (v : value)
  (o : list (jsstring * value)) :
  lookup k (obj_set k v o) = v.
Proof.
  induction o as [|[k' v'] o IH]; simpl.
  - now rewrite jsstring_eqb_refl.
  - destruct (jsstring_eqb k k') eqn:E; simpl.
    + now rewrite jsstring_eqb_refl.
    + now rewrite E.
Qed.

Lemma lookup_obj_set_other (k k' : jsstring) (v : value)
  (o : list (jsstring * value)) :
  k' <> k -> lookup k' (obj_set k v o) = lookup k' o.
Proof.
  intros H. induction o as [|[k0 v0] o IH]; simpl.
  - now rewrite jsstring_eqb_neq.
  - destruct (jsstring_eqb k k0) eqn:E; simpl.
    + apply jsstring_eqb_eq in E. subst k0.
      now rewrite jsstring_eqb_neq.
    + now rewrite IH.
Qed.

(** Extra headers cannot replace the authorization header nor the content
    type; every other extra header is sent as given. *)
Theorem OPENAI_HEADERS_protected (extra : list (jsstring * value))
  (header prefix key : jsstring) :
  lookup header (OPENAI_HEADERS extra header prefix key)
  = VStr (authValue prefix key)
  /\ (header <> js "Content-Type" ->
      lookup (js "Content-Type") (OPENAI_HEADERS extra header prefix key)
      = VStr (js "application/json"))
  /\ (forall k, k <> header -> k <> js "Content-Type" ->
        lookup k (OPENAI_HEADERS extra header prefix key) = lookup k extra).
Proof.
  unfold OPENAI_HEADERS. split; [apply lookup_obj_set_same|]. split.
  - intros H. rewrite lookup_obj_set_other by (intros E; now symmetry in E).
    apply lookup_obj_set_same.
  - intros k H1 H2. now rewrite !lookup_obj_set_other.
Qed.

Lemma OPENAI_HEADERS_protected_witness :
  let extra := [(js "Authorization", VStr (js "other"));
                (js "X-Title", VStr (js "bot"))] in
  let headers := OPENAI_HEADERS extra (OPENAI_AUTH_HEADER None)
                   (OPENAI_AUTH_PREFIX None) (js "sk-1") in
  js "Authorization" <> js "Content-Type"
  /\ lookup (js "Authorization") headers = VStr (js "Bearer sk-1")
  /\ lookup (js "Content-Type") headers = VStr (js "application/json")
  /\ lookup (js "X-Title") headers = VStr (js "bot").
Proof.
  intros extra headers.
  assert (H : js "Authorization" <> js "Content-Type") by discriminate.
  destruct (OPENAI_HEADERS_protected extra (js "Authorization") (js "Bearer")
              (js "sk-1")) as [H1 [H2 H3]].
  split; [exact H|]. split; [exact H1|]. split; [exact (H2 H)|].
  apply (H3 (js "X-Title")); discriminate.
Defined.

(** With a prefix the authorization value has no white space at its ends;
    with the prefix set to the empty string it is the key as it is. *)
Theorem authValue_trimmed (prefix key : jsstring) :
  (prefix <> [] -> trim (authValue prefix key) = authValue prefix key)
  /\ authValue (OPENAI_AUTH_PREFIX (Some [])) key = key.
Proof.
  split; [|reflexivity].
  intros H. unfold authValue. destruct prefix; [contradiction|].
  simpl truthy. cbv iota. apply trim_idem.
Qed.

Lemma authValue_trimmed_witness :
  js "Bearer" <> []
  /\ trim (authValue (js "Bearer") (js "sk-1 ")) = authValue (js "Bearer") (js "sk-1 ").
Proof.
  assert (H : js "Bearer" <> []) by discriminate.
  split; [exact H | exact (proj1 (authValue_trimmed _ _) H)].
Defined.

(** ** Restricted channels *)

Lemma split_on_not_nil (sep : code_unit) (s : jsstring) : split_on sep s <> [].
Proof.
  destruct s as [|c s]; simpl; [discriminate|].
  destruct (c =? sep)%N; [discriminate|].
  destruct (split_on sep s); discriminate.
Qed.

Lemma split_on_no_sep (sep : code_unit) (s : jsstring) :
  Forall (fun l => ~ In sep l) (split_on sep s).
Proof.
  induction s as [|c s IH]; simpl; [constructor; [intros []|constructor]|].
  destruct (N.eqb_spec c sep) as [->|Hc]; [constructor; [intros []|exact IH]|].
  pose proof (split_on_not_nil sep s).
  destruct (split_on sep s) as [|l ls]; [contradiction|].
  inversion IH as [|? ? Hl Hls]; subst. constructor; [|exact Hls].
  intros [E|E]; [now apply Hc | now apply Hl].
Qed.

Lemma trim_incl (s : jsstring) (c : code_unit) : In c (trim s) -> In c s.
Proof.
  unfold trim. intros H.
  destruct (trimStart_suffix s) as [pre [Hs _]].
  destruct (trimEnd_prefix (trimStart s)) as [post [He _]].
  rewrite Hs, He. apply in_or_app. right. apply in_or_app. now left.
Qed.

(** The channel ids read from the configuration are not empty, have no
    white space at their ends and no comma in them. *)
Theorem AUTO_BAN_CHANNEL_IDS_clean (e : option jsstring) :
  Forall (fun id => id <> [] /\ trim id = id /\ ~ In COMMA id)
    (AUTO_BAN_CHANNEL_IDS e).
Proof.
  unfold AUTO_BAN_CHANNEL_IDS. apply Forall_forall. intros id Hid.
  apply filter_In in Hid as [Hin Ht].
  apply in_map_iff in Hin as [l [<- Hl]].
  split; [destruct (trim l); [discriminate | discriminate]|].
  split; [apply trim_idem|].
  intros Hc. apply trim_incl in Hc.
  pose proof (split_on_no_sep COMMA
                (env_or e (js "1458316803217424427"))) as Hno.
  rewrite Forall_forall in Hno. now apply (Hno l).
Qed.

(** ** Mentions *)

(** The turn stored for the user is the cleaned message trimmed, or
    [DEFAULT_USER_MESSAGE] when the cleaned message is blank; it is never
    blank and has no white space at its ends. *)
Theorem userMessage_not_blank (cleaned : jsstring) :
  userMessage cleaned
  = (if blank cleaned then DEFAULT_USER_MESSAGE else trim cleaned)
  /\ userMessage (js "   ") = js "Respond helpfully to the user."
  /\ blank (userMessage cleaned) = false
  /\ trim (userMessage cleaned) = userMessage cleaned.
Proof.
  split; [|split; [reflexivity|]].
  - unfold userMessage. rewrite trim_length_pos. now destruct (blank cleaned).
  - unfold userMessage. destruct (trim cleaned) as [|c t] eqn:E.
    + split; reflexivity.
    + simpl Nat.ltb. cbv iota. rewrite <- E. split.
      * apply trim_not_blank. congruence.
      * apply trim_idem.
Qed.

Lemma exec_lit (a : code_unit) (r : regex) (prev : option code_unit)
  (s : jsstring) :
  exec (lit a :: r) prev (a :: s) = exec r (Some a) s.
Proof. unfold lit. rewrite exec_chr. now rewrite N.eqb_refl. Qed.

Lemma exec_lits (id : jsstring) (r : regex) (s x : jsstring) :
  (forall prev, exec r prev s = Some x) ->
  forall prev, exec (map lit id ++ r) prev (id ++ s) = Some x.
Proof.
  intros H. induction id as [|c id IH]; intros prev; [apply H|].
  simpl map. simpl app. rewrite exec_lit. apply IH.
Qed.

(** The mention pattern takes [<@id>] and [<@!id>]. *)
Lemma exec_mention (id post : jsstring) (bang : bool)
  (prev : option code_unit) :
  forallb is_digit id = true ->
  exec (re_mention id) prev
    (60%N :: 64%N :: (if bang then [33%N] else []) ++ id ++ 62%N :: post)
  = Some post.
Proof.
  intros Hid. unfold re_mention. rewrite !exec_lit, exec_opt.
  assert (Hrest : forall p, exec (map lit id ++ [lit 62%N]) p (id ++ 62%N :: post)
                            = Some post).
  { apply exec_lits. intros p. now rewrite exec_lit. }
  destruct bang; simpl app.
  - change (is_bang 33%N) with true. cbv iota. now rewrite Hrest.
  - destruct id as [|d id]; simpl app in *.
    + change (is_bang 62%N) with false. cbv iota. apply Hrest.
    + simpl in Hid. apply andb_true_iff in Hid as [Hd _].
      assert (Hb : is_bang d = false).
      { unfold is_bang, is_digit in *. apply andb_true_iff in Hd as [Hd _].
        apply N.leb_le in Hd. apply N.eqb_neq. lia. }
      rewrite Hb. apply Hrest.
Qed.

Lemma no_lt_no_mention (id s : jsstring) :
  no_lt s = true -> forall prev, no_match (re_mention id) prev s = true.
Proof.
  induction s as [|c s IH]; intros H prev; [reflexivity|].
  simpl in H. apply andb_true_iff in H as [Hc Hs].
  rewrite no_match_cons. unfold re_mention, lit at 1. rewrite exec_chr.
  destruct (N.eqb_spec 60%N c) as [<-|_]; [discriminate|].
  now apply IH.
Qed.

Lemma replace_mention_prefix (id pre s : jsstring) :
  no_lt pre = true ->
  forall prev,
    replace_from (re_mention id) [] 0 prev (pre ++ s)
    = pre ++ replace_from (re_mention id) [] 0 None s.
Proof.
  intros H. induction pre as [|c pre IH]; intros prev.
  - simpl app. now apply replace_from_prev.
  - simpl in H. apply andb_true_iff in H as [Hc Hp].
    simpl app. rewrite replace_from_cons.
    unfold re_mention at 1, lit at 1. rewrite exec_chr.
    destruct (N.eqb_spec 60%N c) as [<-|_]; [discriminate|].
    fold (lit 60%N). fold (re_mention id). now rewrite IH.
Qed.

(** A content without [<] has no mention in it and is only trimmed. *)
Theorem stripBotMention_no_mention (id content : jsstring) :
  forallb is_digit id = true -> no_lt content = true ->
  stripBotMention content id = trim content.
Proof.
  intros _ H. unfold stripBotMention, replace_all.
  now rewrite replace_no_match by now apply no_lt_no_mention.
Qed.

Lemma stripBotMention_no_mention_witness :
  forallb is_digit (js "42") = true /\ no_lt (js " hello ") = true
  /\ stripBotMention (js " hello ") (js "42") = js "hello".
Proof.
  assert (H1 : forallb is_digit (js "42") = true) by reflexivity.
  assert (H2 : no_lt (js " hello ") = true) by reflexivity.
  split; [exact H1|]. split; [exact H2|].
  exact (eq_trans (stripBotMention_no_mention _ _ H1 H2) eq_refl).
Defined.

(** A mention of the bot, in either form, between two texts without [<] is
    taken out, and the white space at the ends with it. *)
Theorem stripBotMention_removes (id pre post : jsstring) (bang : bool) :
  forallb is_digit id = true ->
  no_lt pre = true -> no_lt post = true ->
  stripBotMention
    (pre ++ 60%N :: 64%N :: (if bang then [33%N] else []) ++ id ++ 62%N :: post)
    id
  = trim (pre ++ post).
Proof.
  intros Hid Hpre Hpost. unfold stripBotMention, replace_all. f_equal.
  rewrite replace_mention_prefix by exact Hpre. f_equal.
  destruct (replace_match (re_mention id) [] None _ post
              (exec_mention id post bang None Hid)) as [prev' ->].
  - simpl. rewrite !length_app. simpl. lia.
  - simpl app. apply replace_no_match. now apply no_lt_no_mention.
Qed.

Lemma stripBotMention_removes_witness :
  forallb is_digit (js "42") = true
  /\ no_lt (js "hey ") = true /\ no_lt (js " hello") = true
  /\ stripBotMention (js "hey <@!42> hello") (js "42") = js "hey  hello".
Proof.
  assert (H1 : forallb is_digit (js "42") = true) by reflexivity.
  assert (H2 : no_lt (js "hey ") = true) by reflexivity.
  assert (H3 : no_lt (js " hello") = true) by reflexivity.
  split; [exact H1|]. split; [exact H2|]. split; [exact H3|].
  exact (eq_trans (stripBotMention_removes _ _ _ true H1 H2 H3) eq_refl).
Defined.

(** ** Conversations by user *)

Lemma lookup_store_same (k : jsstring) (c : conversation)
  (cs : list (jsstring * conversation)) :
  lookup_conversation k (store_conversation k c cs) = Some c.
Proof.
  induction cs as [|[k' c'] cs IH]; simpl.
  - now rewrite jsstring_eqb_refl.
  - destruct (jsstring_eqb k k') eqn:E; simpl; now rewrite E.
Qed.

Lemma lookup_store_other (k k' : jsstring) (c : conversation)
  (cs : list (jsstring * conversation)) :
  k' <> k ->
  lookup_conversation k' (store_conversation k c cs)
  = lookup_conversation k' cs.
Proof.
  intros H. induction cs as [|[k0 c0] cs IH]; simpl.
  - now rewrite jsstring_eqb_neq.
  - destruct (jsstring_eqb k k0) eqn:E; simpl.
    + apply jsstring_eqb_eq in E. subst k0. now rewrite jsstring_eqb_neq.
    + now rewrite IH.
Qed.

Lemma store_store (k : jsstring) (c c' : conversation)
  (cs : list (jsstring * conversation)) :
  store_conversation k c' (store_conversation k c cs)
  = store_conversation k c' cs.
Proof.
  induction cs as [|[k0 c0] cs IH]; simpl.
  - now rewrite jsstring_eqb_refl.
  - destruct (jsstring_eqb k k0) eqn:E; simpl; rewrite E; [reflexivity|].
    now rewrite IH.
Qed.

Lemma store_bounded (P : conversation -> Prop) (k : jsstring)
  (c : conversation) (cs : list (jsstring * conversation)) :
  P c -> Forall (fun p => P (snd p)) cs ->
  Forall (fun p => P (snd p)) (store_conversation k c cs).
Proof.
  intros Hc H. induction H as [|[k0 c0] cs H0 H IH]; simpl.
  - now constructor.
  - destruct (jsstring_eqb k k0); constructor; auto.
Qed.

(** For user ids made of digits, [getConversation] gives the stored
    conversation of a user, creates an empty one for a new user, and touches
    nobody else's. *)
Theorem getConversation_spec (st : state) (userId : jsstring) :
  forallb is_digit userId = true ->
  lookup_conversation userId (conversations (snd (getConversation st userId)))
  = Some (fst (getConversation st userId))
  /\ (lookup_conversation userId (conversations st) = None ->
      fst (getConversation st userId) = {| messages := [] |})
  /\ (forall c, lookup_conversation userId (conversations st) = Some c ->
        getConversation st userId = (c, st))
  /\ (forall other, forallb is_digit other = true -> other <> userId ->
        lookup_conversation other (conversations (snd (getConversation st userId)))
        = lookup_conversation other (conversations st)).
Proof.
  intros _. unfold getConversation.
  destruct (lookup_conversation userId (conversations st)) as [c|] eqn:E;
    simpl.
  - repeat split; try assumption; try discriminate.
    intros c0 H. now injection H as ->.
  - split; [apply lookup_store_same|]. split; [reflexivity|].
    split; [discriminate|]. intros other _ H. now apply lookup_store_other.
Qed.

Lemma getConversation_spec_witness :
  forallb is_digit (js "42") = true
  /\ lookup_conversation (js "42") (conversations initial_state) = None
  /\ fst (getConversation initial_state (js "42")) = {| messages := [] |}
  /\ forallb is_digit (js "7") = true
  /\ js "7" <> js "42"
  /\ lookup_conversation (js "7")
       (conversations (snd (getConversation initial_state (js "42"))))
     = lookup_conversation (js "7") (conversations initial_state).
Proof.
  assert (D : forallb is_digit (js "42") = true) by reflexivity.
  assert (H : lookup_conversation (js "42") (conversations initial_state) = None)
    by reflexivity.
  assert (D' : forallb is_digit (js "7") = true) by reflexivity.
  assert (N : js "7" <> js "42") by discriminate.
  destruct (getConversation_spec initial_state (js "42") D) as [_ [H1 [_ H2]]].
  split; [exact D|]. split; [exact H|]. split; [exact (H1 H)|].
  split; [exact D'|]. split; [exact N | exact (H2 _ D' N)].
Defined.

(** ** The message handler *)

(** A message that passes the guards: not from a bot, the author not banned
    for it, in a guild, mentioning the bot. *)
Lemma on_message_handled (MAX_HISTORY_MESSAGES MAX_HISTORY_CHARS : number)
  (botUserId : jsstring) (st : state) (ev : message_event) :
  ev_author_bot ev = false -> ev_auto_banned ev = false ->
  ev_in_guild ev = true -> ev_mentions_bot ev = true ->
  on_message MAX_HISTORY_MESSAGES MAX_HISTORY_CHARS botUserId st ev =
  match append MAX_HISTORY_MESSAGES MAX_HISTORY_CHARS
          (fst (getConversation st (ev_author ev)))
          {| msg_role := user;
             content := userMessage (stripBotMention (ev_content ev) botUserId) |}
  with
  | Some c' =>
      Some {| globalSystemPrompt := globalSystemPrompt st;
              conversations :=
                store_conversation (ev_author ev) c' (conversations st) |}
  | None => None
  end.
Proof.
  intros H1 H2 H3 H4. unfold on_message, getConversation.
  rewrite H1, H2, H3, H4. simpl negb. cbv iota.
  destruct (lookup_conversation (ev_author ev) (conversations st)); simpl;
    destruct (append _ _ _ _); try reflexivity.
  now rewrite store_store.
Qed.

(** For ids made of digits and unless [1 > MAX_HISTORY_MESSAGES] (so for a
    bound of at least one, and for [NaN]), a mention adds the user's turn at
    the end of the author's conversation and leaves every other conversation
    and the system prompt as they were. *)
Theorem on_message_mention (MAX_HISTORY_MESSAGES MAX_HISTORY_CHARS : number)
  (botUserId : jsstring) (st : state) (ev : message_event) :
  ev_author_bot ev = false -> ev_auto_banned ev = false ->
  ev_in_guild ev = true -> ev_mentions_bot ev = true ->
  forallb is_digit botUserId = true ->
  forallb is_digit (ev_author ev) = true ->
  gt_num 1 MAX_HISTORY_MESSAGES = false ->
  exists st' c' pre,
    on_message MAX_HISTORY_MESSAGES MAX_HISTORY_CHARS botUserId st ev = Some st'
    /\ lookup_conversation (ev_author ev) (conversations st') = Some c'
    /\ messages c'
       = pre ++ [ {| msg_role := user;
                     content := userMessage
                                  (stripBotMention (ev_content ev) botUserId) |} ]
    /\ (forall other, forallb is_digit other = true -> other <> ev_author ev ->
          lookup_conversation other (conversations st')
          = lookup_conversation other (conversations st))
    /\ globalSystemPrompt st' = globalSystemPrompt st.
Proof.
  intros H1 H2 H3 H4 _ _ Hmax.
  rewrite on_message_handled by assumption.
  destruct (append_last MAX_HISTORY_MESSAGES MAX_HISTORY_CHARS
              (fst (getConversation st (ev_author ev)))
              {| msg_role := user;
                 content := userMessage
                              (stripBotMention (ev_content ev) botUserId) |} Hmax)
    as [c' [pre [E Hc]]].
  rewrite E. eexists. exists c', pre. split; [reflexivity|].
  cbn [conversations globalSystemPrompt].
  split; [apply lookup_store_same|]. split; [exact Hc|].
  split; [|reflexivity]. intros other _ H. now apply lookup_store_other.
Qed.

Lemma on_message_mention_witness :
  let ev := {| ev_author_bot := false; ev_auto_banned := false;
               ev_in_guild := true; ev_mentions_bot := true;
               ev_author := js "42"; ev_content := js "<@9> hello" |} in
  forallb is_digit (js "9") = true /\ forallb is_digit (js "42") = true
  /\ gt_num 1 30 = false
  /\ exists st' c' pre,
       on_message 30 12000 (js "9") initial_state ev = Some st'
       /\ lookup_conversation (js "42") (conversations st') = Some c'
       /\ messages c'
          = pre ++ [ {| msg_role := user;
                        content := userMessage
                                     (stripBotMention (js "<@9> hello") (js "9")) |} ]
       /\ (forall other, forallb is_digit other = true -> other <> js "42" ->
             lookup_conversation other (conversations st')
             = lookup_conversation other (conversations initial_state))
       /\ globalSystemPrompt st' = globalSystemPrompt initial_state.
Proof.
  intros ev.
  split; [reflexivity|]. split; [reflexivity|]. split; [reflexivity|].
  apply (on_message_mention 30 12000 (js "9") initial_state ev);
    reflexivity.
Defined.

(** For bounds that are numbers, the message bound not negative, and ids
    made of digits, the handling of a message up to its [await] and the two
    commands keep every stored conversation within the bounds. *)
Theorem bounded_preserved (MAX_HISTORY_MESSAGES MAX_HISTORY_CHARS : number)
  (botUserId : jsstring) (st : state) :
  le_num 0 MAX_HISTORY_MESSAGES = true -> MAX_HISTORY_CHARS <> NaN ->
  forallb is_digit botUserId = true ->
  bounded MAX_HISTORY_MESSAGES MAX_HISTORY_CHARS st ->
  (forall ev, forallb is_digit (ev_author ev) = true ->
     exists st',
       on_message MAX_HISTORY_MESSAGES MAX_HISTORY_CHARS botUserId st ev = Some st'
       /\ bounded MAX_HISTORY_MESSAGES MAX_HISTORY_CHARS st')
  /\ bounded MAX_HISTORY_MESSAGES MAX_HISTORY_CHARS (reset_command st)
  /\ (forall prompt resetContext,
        bounded MAX_HISTORY_MESSAGES MAX_HISTORY_CHARS
          (systemprompt_command st prompt resetContext)).
Proof.
  intros Hmax Hnum _ Hb. split; [|split].
  - intros ev _.
    destruct (ev_author_bot ev) eqn:H1;
      [exists st; unfold on_message; rewrite H1; auto|].
    destruct (ev_auto_banned ev) eqn:H2;
      [exists st; unfold on_message; rewrite H1, H2; auto|].
    destruct (ev_in_guild ev) eqn:H3;
      [|exists st; unfold on_message; rewrite H1, H2, H3; auto].
    destruct (ev_mentions_bot ev) eqn:H4;
      [|exists st; unfold on_message; rewrite H1, H2, H3, H4; auto].
    rewrite on_message_handled by assumption.
    unfold append.
    match goal with
    | |- context [trimHistory _ _ ?c] =>
        destruct (trimHistory_total MAX_HISTORY_MESSAGES MAX_HISTORY_CHARS c
                    Hmax Hnum) as [msgs [E Hw]]
    end.
    rewrite E. eexists. split; [reflexivity|].
    unfold bounded. cbn [conversations].
    apply (store_bounded
             (fun c => within_bounds MAX_HISTORY_MESSAGES MAX_HISTORY_CHARS
                         (messages c))); assumption.
  - constructor.
  - intros prompt resetContext. unfold bounded, systemprompt_command.
    cbn [conversations]. destruct resetContext; [constructor | exact Hb].
Qed.

Lemma bounded_preserved_witness :
  le_num 0 30 = true /\ of_Z 12000 <> NaN
  /\ forallb is_digit (js "9") = true
  /\ bounded 30 12000 initial_state
  /\ forallb is_digit (js "42") = true
  /\ exists st',
       on_message 30 12000 (js "9") initial_state
         {| ev_author_bot := false; ev_auto_banned := false;
            ev_in_guild := true; ev_mentions_bot := true;
            ev_author := js "42"; ev_content := js "<@9> hello" |} = Some st'
       /\ bounded 30 12000 st'.
Proof.
  assert (H1 : le_num 0 30 = true) by reflexivity.
  assert (H2 : of_Z 12000 <> NaN) by discriminate.
  assert (D : forallb is_digit (js "9") = true) by reflexivity.
  assert (H : bounded 30 12000 initial_state) by constructor.
  assert (D' : forallb is_digit (js "42") = true) by reflexivity.
  split; [exact H1|]. split; [exact H2|]. split; [exact D|].
  split; [exact H|]. split; [exact D'|].
  exact (proj1 (bounded_preserved 30 12000 (js "9") initial_state H1 H2 D H)
           {| ev_author_bot := false; ev_auto_banned := false;
              ev_in_guild := true; ev_mentions_bot := true;
              ev_author := js "42"; ev_content := js "<@9> hello" |} D').
Defined.

(** ** Conversations as shared objects *)

Lemma heap_set_length (h : list (list message)) (a : nat) (v : list message) :
  length (heap_set h a v) = length h.
Proof.
  revert a; induction h as [|x h IH]; intros [|a]; simpl; auto.
Qed.

Lemma heap_get_set_same (h : list (list message)) (a : nat) (v : list message) :
  (a < length h)%nat -> heap_get (heap_set h a v) a = v.
Proof.
  unfold heap_get. revert a; induction h as [|x h IH]; intros [|a] H;
    simpl in *; try lia; [reflexivity|]. apply IH. lia.
Qed.

Lemma heap_get_set_other (h : list (list message)) (a b : nat)
  (v : list message) :
  a <> b -> heap_get (heap_set h a v) b = heap_get h b.
Proof.
  unfold heap_get. revert a b; induction h as [|x h IH]; intros [|a] [|b] H;
    simpl; try reflexivity; try contradiction.
  apply IH. lia.
Qed.

Lemma heap_set_Forall (P : list message -> Prop) (h : list (list message))
  (a : nat) (v : list message) :
  Forall P h -> P v -> Forall P (heap_set h a v).
Proof.
  intros H Hv. revert a; induction H as [|x h Hx H IH]; intros [|a]; simpl;
    constructor; auto.
Qed.

Lemma lookup_addr_In (u : jsstring) (idx : list (jsstring * nat)) (a : nat) :
  lookup_addr u idx = Some a -> In a (map snd idx).
Proof.
  induction idx as [|[k b] idx IH]; simpl; [discriminate|].
  destruct (jsstring_eqb u k); [|auto].
  intros H. injection H as ->. now left.
Qed.

Lemma store_addr_new (u : jsstring) (a : nat) (idx : list (jsstring * nat)) :
  lookup_addr u idx = None -> store_addr u a idx = idx ++ [(u, a)].
Proof.
  induction idx as [|[k b] idx IH]; simpl; [reflexivity|].
  destruct (jsstring_eqb u k); [discriminate|]. intros H. now rewrite IH.
Qed.

Lemma store_conversation_new (u : jsstring) (c : conversation)
  (cs : list (jsstring * conversation)) :
  lookup_conversation u cs = None -> store_conversation u c cs = cs ++ [(u, c)].
Proof.
  induction cs as [|[k b] cs IH]; simpl; [reflexivity|].
  destruct (jsstring_eqb u k); [discriminate|]. intros H. now rewrite IH.
Qed.

Lemma view_lookup (s : store) (u : jsstring) :
  lookup_conversation u (conversations (view s))
  = match lookup_addr u (store_index s) with
    | Some a => Some {| messages := heap_get (store_heap s) a |}
    | None => None
    end.
Proof.
  unfold view. cbn [conversations].
  induction (store_index s) as [|[k b] idx IH]; simpl; [reflexivity|].
  destruct (jsstring_eqb u k); [reflexivity | exact IH].
Qed.

(** Writing to the object of a user shows as storing the user's
    conversation, when no other user shares the object. *)
Lemma view_heap_set (h : list (list message)) (idx : list (jsstring * nat))
  (u : jsstring) (a : nat) (v : list message) :
  lookup_addr u idx = Some a -> NoDup (map snd idx) ->
  Forall (fun p => (snd p < length h)%nat) idx ->
  map (fun p => (fst p, {| messages := heap_get (heap_set h a v) (snd p) |})) idx
  = store_conversation u {| messages := v |}
      (map (fun p => (fst p, {| messages := heap_get h (snd p) |})) idx).
Proof.
  induction idx as [|[k b] idx IH]; intros Hl Hnd Hlt; [discriminate|].
  simpl in *. inversion Hnd as [|? ? Hnotin Hnd']; subst.
  inversion Hlt as [|? ? Hb Hlt']; subst. simpl in Hb.
  destruct (jsstring_eqb u k) eqn:E.
  - injection Hl as ->. rewrite heap_get_set_same by exact Hb. f_equal.
    apply map_ext_in. intros [k' b'] Hin. simpl.
    rewrite heap_get_set_other; [reflexivity|].
    intros ->. apply Hnotin. apply in_map_iff. now exists (k', b').
  - rewrite IH by assumption.
    rewrite heap_get_set_other; [reflexivity|].
    intros ->. apply Hnotin. now apply (lookup_addr_In u).
Qed.


Section SharedObjects.

Variable MAX_HISTORY_MESSAGES : number.
Variable MAX_HISTORY_CHARS : number.
Hypothesis MAX_not_negative : le_num 0 MAX_HISTORY_MESSAGES = true.
Hypothesis MAX_CHARS_number : MAX_HISTORY_CHARS <> NaN.

Lemma getConversation_ref_wf (s : store) (u : jsstring) :
  well_formed MAX_HISTORY_MESSAGES MAX_HISTORY_CHARS s ->
  well_formed MAX_HISTORY_MESSAGES MAX_HISTORY_CHARS
    (snd (getConversation_ref s u))
  /\ lookup_addr u (store_index (snd (getConversation_ref s u)))
     = Some (fst (getConversation_ref s u))
  /\ (fst (getConversation_ref s u)
      < length (store_heap (snd (getConversation_ref s u))))%nat.
Proof.
  intros [Hlt [Hnd Hb]]. unfold getConversation_ref.
  destruct (lookup_addr u (store_index s)) as [a|] eqn:E; simpl.
  - split; [now split|]. split; [exact E|].
    apply lookup_addr_In in E. apply in_map_iff in E as [[k b] [<- Hin]].
    rewrite Forall_forall in Hlt. now apply (Hlt (k, b)).
  - rewrite store_addr_new by exact E.
    unfold well_formed. cbn [store_index store_heap].
    rewrite !length_app. simpl length.
    split; [split; [|split]|split; [|lia]].
    + apply Forall_app. split.
      * eapply Forall_impl; [|exact Hlt]. simpl. intros; lia.
      * constructor; [simpl; lia | constructor].
    + rewrite map_app. simpl.
      apply NoDup_app; [exact Hnd | repeat constructor; intros []|].
      intros b Hin [<-|[]]. apply in_map_iff in Hin as [[k b'] [E' Hin]].
      rewrite Forall_forall in Hlt. specialize (Hlt _ Hin). simpl in *. lia.
    + apply Forall_app. split; [exact Hb|]. constructor; [|constructor].
      split; [exact MAX_not_negative | simpl; lia].
    + clear -E. induction (store_index s) as [|[k b] idx IH]; simpl in *.
      * now rewrite jsstring_eqb_refl.
      * destruct (jsstring_eqb u k); [discriminate | now apply IH].
Qed.

Lemma push_and_trim_wf (s : store) (a : nat) (m : message) :
  well_formed MAX_HISTORY_MESSAGES MAX_HISTORY_CHARS s ->
  exists msgs,
    push_and_trim MAX_HISTORY_MESSAGES MAX_HISTORY_CHARS s a m
    = Some {| store_prompt := store_prompt s; store_index := store_index s;
              store_heap := heap_set (store_heap s) a msgs |}
    /\ append MAX_HISTORY_MESSAGES MAX_HISTORY_CHARS
         {| messages := heap_get (store_heap s) a |} m
       = Some {| messages := msgs |}
    /\ well_formed MAX_HISTORY_MESSAGES MAX_HISTORY_CHARS
         {| store_prompt := store_prompt s; store_index := store_index s;
            store_heap := heap_set (store_heap s) a msgs |}.
Proof.
  intros [Hlt [Hnd Hb]]. unfold push_and_trim, append.
  match goal with
  | |- context [trimHistory _ _ ?c] =>
      destruct (trimHistory_total MAX_HISTORY_MESSAGES MAX_HISTORY_CHARS c
                  MAX_not_negative MAX_CHARS_number) as [msgs [E Hw]]
  end.
  rewrite E. exists msgs. split; [reflexivity|]. split; [reflexivity|].
  split; [|split]; simpl.
  - now rewrite heap_set_length.
  - exact Hnd.
  - now apply heap_set_Forall.
Qed.

Lemma mention_start_cases (botUserId : jsstring) (s : store)
  (ev : message_event) :
  (mention_start MAX_HISTORY_MESSAGES MAX_HISTORY_CHARS botUserId s ev
   = Some (None, s)
   /\ on_message MAX_HISTORY_MESSAGES MAX_HISTORY_CHARS botUserId (view s) ev
      = Some (view s))
  \/ (ev_author_bot ev = false /\ ev_auto_banned ev = false
      /\ ev_in_guild ev = true /\ ev_mentions_bot ev = true
      /\ mention_start MAX_HISTORY_MESSAGES MAX_HISTORY_CHARS botUserId s ev
         = match push_and_trim MAX_HISTORY_MESSAGES MAX_HISTORY_CHARS
                   (snd (getConversation_ref s (ev_author ev)))
                   (fst (getConversation_ref s (ev_author ev)))
                   {| msg_role := user;
                      content := userMessage
                                   (stripBotMention (ev_content ev) botUserId) |}
           with
           | Some s2 => Some (Some (fst (getConversation_ref s (ev_author ev))), s2)
           | None => None
           end).
Proof.
  unfold mention_start, on_message.
  destruct (ev_author_bot ev); [now left|].
  destruct (ev_auto_banned ev); [now left|].
  destruct (ev_in_guild ev); [|now left].
  destruct (ev_mentions_bot ev); [|now left].
  right. repeat split. simpl negb. cbv iota.
  now destruct (getConversation_ref s (ev_author ev)).
Qed.

End SharedObjects.

Lemma heap_get_app (h : list (list message)) (x : list message) (b : nat) :
  (b < length h)%nat -> heap_get (h ++ [x]) b = heap_get h b.
Proof. intros H. unfold heap_get. now apply app_nth1. Qed.

Lemma heap_get_new (h : list (list message)) (x : list message) :
  heap_get (h ++ [x]) (length h) = x.
Proof. unfold heap_get. now rewrite app_nth2, Nat.sub_diag by lia. Qed.

(** [getConversation] on the objects shows as [getConversation] on the
    state. *)
Lemma getConversation_view (MAX_HISTORY_MESSAGES MAX_HISTORY_CHARS : number)
  (s : store) (u : jsstring) :
  well_formed MAX_HISTORY_MESSAGES MAX_HISTORY_CHARS s ->
  getConversation (view s) u
  = ({| messages := heap_get (store_heap (snd (getConversation_ref s u)))
                      (fst (getConversation_ref s u)) |},
     view (snd (getConversation_ref s u))).
Proof.
  intros [Hlt _]. unfold getConversation, getConversation_ref.
  rewrite view_lookup.
  destruct (lookup_addr u (store_index s)) as [a|] eqn:E; [reflexivity|].
  cbn [fst snd store_heap]. rewrite heap_get_new. f_equal.
  unfold view. cbn [store_prompt store_index store_heap globalSystemPrompt conversations].
  f_equal. rewrite store_addr_new by exact E.
  rewrite store_conversation_new.
  - rewrite map_app. simpl. rewrite heap_get_new. f_equal.
    apply map_ext_in. intros [k b] Hin. simpl.
    rewrite Forall_forall in Hlt. specialize (Hlt _ Hin). simpl in Hlt.
    now rewrite heap_get_app.
  - pose proof (view_lookup s u) as V. rewrite E in V. exact V.
Qed.

(** For bounds that are numbers, the message bound not negative, and ids
    made of digits: up to the [await], the handler on the objects shows on
    the state as [on_message]. *)
Theorem mention_start_view (MAX_HISTORY_MESSAGES MAX_HISTORY_CHARS : number)
  (botUserId : jsstring) (s : store) (ev : message_event) :
  le_num 0 MAX_HISTORY_MESSAGES = true -> MAX_HISTORY_CHARS <> NaN ->
  forallb is_digit botUserId = true ->
  forallb is_digit (ev_author ev) = true ->
  well_formed MAX_HISTORY_MESSAGES MAX_HISTORY_CHARS s ->
  exists held s',
    mention_start MAX_HISTORY_MESSAGES MAX_HISTORY_CHARS botUserId s ev
    = Some (held, s')
    /\ on_message MAX_HISTORY_MESSAGES MAX_HISTORY_CHARS botUserId (view s) ev
       = Some (view s')
    /\ well_formed MAX_HISTORY_MESSAGES MAX_HISTORY_CHARS s'.
Proof.
  intros Hmax Hnum _ _ Hwf.
  destruct (mention_start_cases MAX_HISTORY_MESSAGES MAX_HISTORY_CHARS
              botUserId s ev) as [[E1 E2]|[H1 [H2 [H3 [H4 E]]]]].
  - exists None, s. auto.
  - destruct (getConversation_ref_wf MAX_HISTORY_MESSAGES MAX_HISTORY_CHARS
                Hmax s (ev_author ev) Hwf) as [Hwf1 [Hl Ha]].
    destruct (push_and_trim_wf MAX_HISTORY_MESSAGES MAX_HISTORY_CHARS Hmax Hnum
                (snd (getConversation_ref s (ev_author ev)))
                (fst (getConversation_ref s (ev_author ev)))
                {| msg_role := user;
                   content := userMessage
                                (stripBotMention (ev_content ev) botUserId) |}
                Hwf1) as [msgs [Ep [Eapp Hwf2]]].
    rewrite E, Ep. eexists. eexists. split; [reflexivity|].
    split; [|exact Hwf2].
    unfold on_message. rewrite H1, H2, H3, H4. simpl negb. cbv iota.
    rewrite (getConversation_view MAX_HISTORY_MESSAGES MAX_HISTORY_CHARS
               s (ev_author ev) Hwf).
    rewrite Eapp. unfold view at 3.
    cbn [store_prompt store_index store_heap globalSystemPrompt conversations].
    f_equal. f_equal.
    destruct Hwf1 as [Hlt1 [Hnd1 _]]. symmetry.
    unfold view. cbn [store_index store_heap conversations].
    now apply view_heap_set.
Qed.

Lemma mention_start_view_witness :
  let s := {| store_prompt := SYSTEM_PROMPT; store_index := []; store_heap := [] |} in
  let ev := {| ev_author_bot := false; ev_auto_banned := false;
               ev_in_guild := true; ev_mentions_bot := true;
               ev_author := js "42"; ev_content := js "<@9> hello" |} in
  le_num 0 30 = true /\ of_Z 12000 <> NaN
  /\ forallb is_digit (js "9") = true /\ forallb is_digit (js "42") = true
  /\ well_formed 30 12000 s
  /\ exists held s',
       mention_start 30 12000 (js "9") s ev = Some (held, s')
       /\ on_message 30 12000 (js "9") (view s) ev = Some (view s')
       /\ well_formed 30 12000 s'.
Proof.
  intros s ev.
  assert (H1 : le_num 0 30 = true) by reflexivity.
  assert (H2 : of_Z 12000 <> NaN) by discriminate.
  assert (D : forallb is_digit (js "9") = true) by reflexivity.
  assert (D' : forallb is_digit (ev_author ev) = true) by reflexivity.
  assert (H : well_formed 30 12000 s) by (repeat split; constructor).
  split; [exact H1|]. split; [exact H2|]. split; [exact D|].
  split; [exact D'|]. split; [exact H|].
  exact (mention_start_view 30 12000 (js "9") s ev H1 H2 D D' H).
Defined.

(** For bounds that are numbers, the message bound not negative: when the
    completion comes back, the assistant's turn goes to the object the
    handler holds.  If a user's entry still points to it, the state shows
    the turn appended to that user's conversation and trimmed. *)
Theorem mention_finish_view (MAX_HISTORY_MESSAGES MAX_HISTORY_CHARS : number)
  (s : store) (u : jsstring) (a : nat) (assistantText : jsstring) :
  le_num 0 MAX_HISTORY_MESSAGES = true -> MAX_HISTORY_CHARS <> NaN ->
  forallb is_digit u = true ->
  well_formed MAX_HISTORY_MESSAGES MAX_HISTORY_CHARS s ->
  lookup_addr u (store_index s) = Some a ->
  exists s' c c',
    mention_finish MAX_HISTORY_MESSAGES MAX_HISTORY_CHARS s a assistantText
    = Some s'
    /\ lookup_conversation u (conversations (view s)) = Some c
    /\ append MAX_HISTORY_MESSAGES MAX_HISTORY_CHARS c
         {| msg_role := assistant; content := assistantText |} = Some c'
    /\ conversations (view s')
       = store_conversation u c' (conversations (view s))
    /\ well_formed MAX_HISTORY_MESSAGES MAX_HISTORY_CHARS s'.
Proof.
  intros Hmax Hnum _ Hwf Hl. unfold mention_finish.
  destruct (push_and_trim_wf MAX_HISTORY_MESSAGES MAX_HISTORY_CHARS Hmax Hnum
              s a {| msg_role := assistant; content := assistantText |} Hwf)
    as [msgs [Ep [Eapp Hwf2]]].
  rewrite Ep. eexists. exists {| messages := heap_get (store_heap s) a |}.
  exists {| messages := msgs |}. split; [reflexivity|].
  split; [rewrite view_lookup; now rewrite Hl|].
  split; [exact Eapp|]. split; [|exact Hwf2].
  unfold view. cbn [store_index store_heap conversations].
  destruct Hwf as [Hlt [Hnd _]]. now apply view_heap_set.
Qed.

Lemma mention_finish_view_witness :
  let s := {| store_prompt := SYSTEM_PROMPT; store_index := [(js "42", 0%nat)];
              store_heap := [[ {| msg_role := user; content := js "hello" |} ]] |} in
  le_num 0 30 = true /\ of_Z 12000 <> NaN
  /\ forallb is_digit (js "42") = true
  /\ well_formed 30 12000 s
  /\ lookup_addr (js "42") (store_index s) = Some 0%nat
  /\ exists s' c c',
       mention_finish 30 12000 s 0 (js "Hi there") = Some s'
       /\ lookup_conversation (js "42") (conversations (view s)) = Some c
       /\ append 30 12000 c
            {| msg_role := assistant; content := js "Hi there" |} = Some c'
       /\ conversations (view s')
          = store_conversation (js "42") c' (conversations (view s))
       /\ well_formed 30 12000 s'.
Proof.
  intros s.
  assert (H1 : le_num 0 30 = true) by reflexivity.
  assert (H2 : of_Z 12000 <> NaN) by discriminate.
  assert (D : forallb is_digit (js "42") = true) by reflexivity.
  assert (H : well_formed 30 12000 s).
  { split; [|split].
    - repeat constructor.
    - repeat constructor. intros [].
    - constructor; [|constructor]. split; [reflexivity | intros _; reflexivity]. }
  assert (L : lookup_addr (js "42") (store_index s) = Some 0%nat) by reflexivity.
  split; [exact H1|]. split; [exact H2|]. split; [exact D|].
  split; [exact H|]. split; [exact L|].
  exact (mention_finish_view 30 12000 s (js "42") 0 (js "Hi there")
           H1 H2 D H L).
Defined.






Lemma completion_text_throws_witness :
  let data :=
    VObj [(js "choices",
           VArr [VObj [(js "message",
                        VObj [(js "content", VStr (js "Hi"));
                              (js "reasoning_content", VArr [])])]])] in
  not_sanitizable (rawReasoning data) = true /\ completion_text data = Throw.
Proof.
  intros data.
  assert (H : not_sanitizable (rawReasoning data) = true) by reflexivity.
  split; [exact H|].
  apply (proj2 (completion_text_throws data)). right. exact H.
Defined.
